(** * Verification of quattordocbuild/builder.py

    Shallow embedding of the site-assembly core of the Quattor documentation
    builder: [build_site_structure], [make_interlinks] with
    [replace_regex_link], [write_site] with [write_toc], and [check_input].

    Modelling conventions.
    - Python 2 [str] values are [string]s.
    - A Python dict is an association list [dict V] without duplicate keys;
      the list order is the dict's iteration order.  Assignment to an
      existing key replaces the value in place, a new key is appended.
    - A raised exception is [None] (or [Raise] where its kind matters).
    - Logged diagnostics are returned as an explicit list. *)

From Stdlib Require Import String Ascii List Bool Arith Lia.
From Stdlib Require Import Sorted Permutation RelationClasses.
From Stdlib Require Import Structures.OrdersEx.
Import ListNotations.
Open Scope string_scope.
Open Scope list_scope.

Local Notation "a +s+ b" := (String.append a b) (at level 60, right associativity).

(* ------------------------------------------------------------------ *)
(** ** Python [str] operations *)

Definition nl : ascii := "010"%char.

(** [needle in hay] *)
Fixpoint str_contains (needle hay : string) : bool :=
  prefix needle hay ||
  match hay with
  | EmptyString => false
  | String _ hay' => str_contains needle hay'
  end.

(** The loop of [str.split(sep)] for a non-empty [sep]: left to right,
    non-overlapping occurrences; [skip] counts the characters of a matched
    separator still to be consumed. *)
Fixpoint split_go (sep s : string) (skip : nat) (cur : string) : list string :=
  match s with
  | EmptyString => [cur]
  | String c s' =>
      match skip with
      | S k => split_go sep s' k cur
      | O =>
          if prefix sep s then cur :: split_go sep s' (String.length sep - 1) ""
          else split_go sep s' 0 (cur +s+ String c "")
      end
  end.

(** [s.split(sep)]; an empty separator raises [ValueError]. *)
Definition py_split (s sep : string) : option (list string) :=
  if String.eqb sep "" then None else Some (split_go sep s 0 "").

(** [s.rfind(c)], [None] standing for [-1]. *)
Fixpoint rfind_go (c : ascii) (s : string) (i : nat) (acc : option nat) : option nat :=
  match s with
  | EmptyString => acc
  | String d s' => rfind_go c s' (S i) (if Ascii.eqb c d then Some i else acc)
  end.

Definition rfind (c : ascii) (s : string) : option nat := rfind_go c s 0 None.

Fixpoint all_dots (s : string) : bool :=
  match s with
  | EmptyString => true
  | String c s' => Ascii.eqb c "." && all_dots s'
  end.

(** [posixpath.splitext] (genericpath._splitext with sep '/', extsep '.'):
    the extension starts at the last dot when that dot lies in the last
    path component and is preceded there by a character other than a dot. *)
Definition splitext (p : string) : string * string :=
  match rfind "." p with
  | None => (p, "")
  | Some dotIndex =>
      let after_sep :=
        match rfind "/" p with None => true | Some sepIndex => Nat.ltb sepIndex dotIndex end in
      let filenameIndex :=
        match rfind "/" p with None => 0 | Some sepIndex => S sepIndex end in
      if after_sep && negb (all_dots (substring filenameIndex (dotIndex - filenameIndex) p))
      then (substring 0 dotIndex p, substring dotIndex (String.length p - dotIndex) p)
      else (p, "")
  end.

(** [s.replace("/", "::")] *)
Fixpoint replace_sep (s : string) : string :=
  match s with
  | EmptyString => EmptyString
  | String c s' => if Ascii.eqb c "/" then "::" +s+ replace_sep s' else String c (replace_sep s')
  end.

(* ------------------------------------------------------------------ *)
(** ** Python dicts *)

Definition dict (V : Type) := list (string * V).

Fixpoint dict_get {V} (d : dict V) (k : string) : option V :=
  match d with
  | [] => None
  | (k', v) :: d' => if String.eqb k k' then Some v else dict_get d' k
  end.

(** [d[k] = v] *)
Fixpoint dict_set {V} (d : dict V) (k : string) (v : V) : dict V :=
  match d with
  | [] => [(k, v)]
  | (k', v') :: d' => if String.eqb k k' then (k, v) :: d' else (k', v') :: dict_set d' k v
  end.

Definition keys {V} (d : dict V) : list string := map fst d.

(* ------------------------------------------------------------------ *)
(** ** build_site_structure *)

(** One entry of the repository map (only the keys the builder reads). *)
Record repo_desc := { sitesection : string; targets : list string }.

(** section -> page name -> markdown *)
Definition sitepages := dict (dict string).

(** A logged "No suitable target found for <source> in <targets>." *)
Definition err := (string * list string)%type.

(** The canonical name computed from a source path and a matching target:
    [os.path.splitext(source.split(target)[-1])[0].replace("/", "::") + ".md"]. *)
Definition new_name (source target : string) : option string :=
  match py_split source target with
  | None => None
  | Some pieces => Some (replace_sep (fst (splitext (last pieces ""))) +s+ ".md")
  end.

(** The inner loop [for target in targets: if target in source and not found: ...]. *)
Fixpoint place_page (sec source markdown : string) (tgts : list string) (found : bool)
    (sp : sitepages) : option (sitepages * bool) :=
  match tgts with
  | [] => Some (sp, found)
  | target :: ts =>
      if str_contains target source && negb found then
        match new_name source target, dict_get sp sec with
        | Some newname, Some inner =>
            place_page sec source markdown ts true (dict_set sp sec (dict_set inner newname markdown))
        | _, _ => None
        end
      else place_page sec source markdown ts found sp
  end.

Definition process_page (sec : string) (tgts : list string) (st : sitepages * list err)
    (page : string * string) : option (sitepages * list err) :=
  let '(sp, log) := st in
  let '(source, markdown) := page in
  match place_page sec source markdown tgts false sp with
  | None => None
  | Some (sp', found) => Some (sp', if found then log else log ++ [(source, tgts)])
  end.

Fixpoint process_pages (sec : string) (tgts : list string) (pages : dict string)
    (st : sitepages * list err) : option (sitepages * list err) :=
  match pages with
  | [] => Some st
  | p :: ps =>
      match process_page sec tgts st p with
      | None => None
      | Some st' => process_pages sec tgts ps st'
      end
  end.

(** One iteration of [for repo, markdowns in markdownlist.iteritems()]. *)
Definition process_repo (repository_map : dict repo_desc) (st : sitepages * list err)
    (entry : string * dict string) : option (sitepages * list err) :=
  let '(repo, markdowns) := entry in
  match dict_get repository_map repo with
  | None => None
  | Some desc =>
      process_pages (sitesection desc) (targets desc) markdowns
        (dict_set (fst st) (sitesection desc) [], snd st)
  end.

Fixpoint process_repos (repository_map : dict repo_desc) (ml : dict (dict string))
    (st : sitepages * list err) : option (sitepages * list err) :=
  match ml with
  | [] => Some st
  | e :: es =>
      match process_repo repository_map st e with
      | None => None
      | Some st' => process_repos repository_map es st'
      end
  end.

Definition build_site_structure (markdownlist : dict (dict string))
    (repository_map : dict repo_desc) : option (sitepages * list err) :=
  process_repos repository_map markdownlist ([], []).

(** The repository's own test case (test_build_site_structure). *)
Definition test_repomap : dict repo_desc :=
  [("configuration-modules-core",
    {| sitesection := "components"; targets := ["/NCM/Component/"; "/components/"; "/pan/quattor/"] |});
   ("CCM", {| sitesection := "CCM"; targets := ["EDG/WP4/CCM/"] |})].

Definition test_markdown : dict (dict string) :=
  [("CCM", [("/tmp/qdoc/src/CCM/target/doc/pod/EDG/WP4/CCM/Fetch/Download.pod", "# NAME")]);
   ("configuration-modules-core",
    [("/tmp/doc/src/configuration-modules-core/ncm-profile/target/pan/components/profile/functions.pan", "Functions");
     ("/tmp/doc/src/configuration-modules-core/ncm-fmonagent/target/doc/pod/NCM/Component/fmonagent.pod", "Hello");
     ("/tmp/doc/src/configuration-modules-core/ncm-freeipa/target/pan/quattor/aii/freeipa/schema.pan", "Hello2")])].

Example test_build_site_structure :
  build_site_structure test_markdown test_repomap =
  Some ([("CCM", [("Fetch::Download.md", "# NAME")]);
         ("components", [("profile::functions.md", "Functions"); ("fmonagent.md", "Hello");
                         ("aii::freeipa::schema.md", "Hello2")])], []).
Proof. vm_compute. reflexivity. Qed.

(* ------------------------------------------------------------------ *)
(** ** The regular expressions of replace_regex_link

    [replace_regex_link] calls
    [re.sub(r'( |^|\n)%s([,. $])' % regex, "\g<1>[%s](%s)\g<2>" % (basename, link), content)].
    The inner pattern [regex] is parsed into atoms: a literal character, a
    backslash-escaped non-alphanumeric character (a literal), or [.] (any
    character but a newline).  Every pattern the builder produces is built
    from these; a pattern holding another regex metacharacter, and a
    replacement holding a backslash, fall outside the modelled fragment
    and give [None]. *)

Inductive ratom := RLit (c : ascii) | RAny.

Definition is_alnum (c : ascii) : bool :=
  let n := nat_of_ascii c in
  (Nat.leb 48 n && Nat.leb n 57) || (Nat.leb 65 n && Nat.leb n 90) || (Nat.leb 97 n && Nat.leb n 122).

Definition is_meta (c : ascii) : bool :=
  existsb (Ascii.eqb c) ["^"; "$"; "*"; "+"; "?"; "{"; "}"; "["; "]"; "("; ")"; "|"]%char.

Fixpoint parse_pat (s : string) : option (list ratom) :=
  match s with
  | EmptyString => Some []
  | String c s' =>
      if Ascii.eqb c "\" then
        match s' with
        | String d s'' => if is_alnum d then None else option_map (cons (RLit d)) (parse_pat s'')
        | EmptyString => None
        end
      else if Ascii.eqb c "." then option_map (cons RAny) (parse_pat s')
      else if is_meta c then None
      else option_map (cons (RLit c)) (parse_pat s')
  end.

(** Match the atoms at the start of [s]; returns the rest. *)
Fixpoint match_atoms (p : list ratom) (s : string) : option string :=
  match p, s with
  | [], _ => Some s
  | RLit c :: p', String d s' => if Ascii.eqb c d then match_atoms p' s' else None
  | RAny :: p', String d s' => if Ascii.eqb d nl then None else match_atoms p' s'
  | _ :: _, EmptyString => None
  end.

(** The class [[,. $]]. *)
Definition is_follow (c : ascii) : bool :=
  Ascii.eqb c "," || Ascii.eqb c "." || Ascii.eqb c " " || Ascii.eqb c "$".

(** [%s([,. $])] at the start of [r]: the second group and the rest. *)
Definition match_tail (p : list ratom) (r : string) : option (ascii * string) :=
  match match_atoms p r with
  | Some (String c rest) => if is_follow c then Some (c, rest) else None
  | _ => None
  end.

(** The whole pattern at the start of [r]; [at0] tells whether this is
    position 0 of the subject ([^] without MULTILINE).  The alternatives of
    the first group are tried in order: space, start, newline. *)
Definition match_at (p : list ratom) (at0 : bool) (r : string) : option (string * ascii * string) :=
  match match r with
        | String c r' => if Ascii.eqb c " " then match_tail p r' else None
        | EmptyString => None
        end with
  | Some (g2, rest) => Some (" ", g2, rest)
  | None =>
      match (if at0 then match_tail p r else None) with
      | Some (g2, rest) => Some ("", g2, rest)
      | None =>
          match r with
          | String c r' =>
              if Ascii.eqb c nl then
                match match_tail p r' with
                | Some (g2, rest) => Some (String nl "", g2, rest)
                | None => None
                end
              else None
          | EmptyString => None
          end
      end
  end.

(** The scan of [re.sub]: leftmost match, replaced, scanning resumes after it. *)
Fixpoint sub_go (fuel : nat) (p : list ratom) (mid : string) (at0 : bool) (r : string) : string :=
  match fuel with
  | O => r
  | S f =>
      match match_at p at0 r with
      | Some (g1, g2, rest) => g1 +s+ mid +s+ String g2 (sub_go f p mid false rest)
      | None =>
          match r with
          | EmptyString => EmptyString
          | String c r' => String c (sub_go f p mid false r')
          end
      end
  end.

(** [re.sub(r'( |^|\n)%s([,. $])' % regex, "\g<1>[%s](%s)\g<2>" % (basename, link), content)] *)
Definition re_sub_link (regex basename link content : string) : option string :=
  match parse_pat regex with
  | None => None
  | Some p =>
      if str_contains "\" basename || str_contains "\" link then None
      else Some (sub_go (S (String.length content)) p ("[" +s+ basename +s+ "](" +s+ link +s+ ")") true content)
  end.

(* ------------------------------------------------------------------ *)
(** ** replace_regex_link and make_interlinks *)

(** The body of the inner loop of [replace_regex_link] for one page. *)
Definition rewrite_content (regex basename link page content : string) : option string :=
  if (negb (str_contains basename page) || String.eqb basename "Quattor")
     && str_contains basename content
  then re_sub_link regex basename link content
  else Some content.

Fixpoint rewrite_pages (regex basename link : string) (pages : dict string) : option (dict string) :=
  match pages with
  | [] => Some []
  | (page, content) :: ps =>
      match rewrite_content regex basename link page content with
      | None => None
      | Some c =>
          match rewrite_pages regex basename link ps with
          | None => None
          | Some ps' => Some ((page, c) :: ps')
          end
      end
  end.

Fixpoint replace_regex_link (pages : sitepages) (regex basename link : string) : option sitepages :=
  match pages with
  | [] => Some []
  | (subdir, d) :: rest =>
      match rewrite_pages regex basename link d with
      | None => None
      | Some d' =>
          match replace_regex_link rest regex basename link with
          | None => None
          | Some rest' => Some ((subdir, d') :: rest')
          end
      end
  end.

Definition cpans := "https://metacpan.org/pod/".

(** ["\[{2}::{0}\]\({1}{2}::{0}\)".format(basename, cpans, ns)] *)
Definition legacy_link (basename ns : string) : string :=
  "\[" +s+ ns +s+ "::" +s+ basename +s+ "\]\(" +s+ cpans +s+ ns +s+ "::" +s+ basename +s+ "\)".

(** [basename] and [link] of a page. *)
Definition page_basename (page : string) : string := fst (splitext page).
Definition page_link (subdir page : string) : string := "../" +s+ subdir +s+ "/" +s+ page.

(** The list [regxs] built for a page. *)
Definition page_regxs (subdir page : string) : list string :=
  let basename := page_basename page in
  ["`" +s+ basename +s+ "`"; "`" +s+ subdir +s+ "::" +s+ basename +s+ "`"]
  ++ (if String.eqb subdir "CCM" then [legacy_link basename "EDG::WP4::CCM"] else [])
  ++ (if String.eqb subdir "Unittest" then [legacy_link basename "Test"] else [])
  ++ (if String.eqb subdir "components" || String.eqb subdir "components-grid"
      then [legacy_link basename "NCM::Component"; "`ncm-" +s+ basename +s+ "`"; "ncm-" +s+ basename]
      else []).

Fixpoint apply_regxs (regxs : list string) (basename link : string) (sp : sitepages) : option sitepages :=
  match regxs with
  | [] => Some sp
  | r :: rs =>
      match replace_regex_link sp r basename link with
      | None => None
      | Some sp' => apply_regxs rs basename link sp'
      end
  end.

(** The body of [for subdir in pages: for page in pages[subdir]: ...]. *)
Definition interlink_target (sp : sitepages) (target : string * string) : option sitepages :=
  let '(subdir, page) := target in
  apply_regxs (page_regxs subdir page) (page_basename page) (page_link subdir page) sp.

(** The (section, page) pairs in iteration order; the loop only replaces
    values, so the keys it walks are those of the input. *)
Definition page_keys (sp : sitepages) : list (string * string) :=
  flat_map (fun e => map (fun pc => (fst e, fst pc)) (snd e)) sp.

Fixpoint interlink_all (tgts : list (string * string)) (sp : sitepages) : option sitepages :=
  match tgts with
  | [] => Some sp
  | t :: ts =>
      match interlink_target sp t with
      | None => None
      | Some sp' => interlink_all ts sp'
      end
  end.

Definition make_interlinks (pages : sitepages) : option sitepages :=
  interlink_all (page_keys pages) pages.

(** Page-wise reading of the loops above: each page's content goes through
    the passes on its own, so the loops are a map over the pages. *)
Definition obind {A B} (o : option A) (f : A -> option B) : option B :=
  match o with Some a => f a | None => None end.

Fixpoint map_page_contents (f : string -> string -> option string) (d : dict string) : option (dict string) :=
  match d with
  | [] => Some []
  | (page, content) :: ps =>
      obind (f page content) (fun c => obind (map_page_contents f ps) (fun ps' => Some ((page, c) :: ps')))
  end.

Fixpoint map_pages (f : string -> string -> option string) (sp : sitepages) : option sitepages :=
  match sp with
  | [] => Some []
  | (subdir, d) :: rest =>
      obind (map_page_contents f d) (fun d' => obind (map_pages f rest) (fun rest' => Some ((subdir, d') :: rest')))
  end.

(** The passes of the patterns of one target over one page. *)
Fixpoint fold_content (regxs : list string) (basename link page content : string) : option string :=
  match regxs with
  | [] => Some content
  | r :: rs => obind (rewrite_content r basename link page content) (fold_content rs basename link page)
  end.

(** The passes of a list of targets over one page. *)
Fixpoint run_passes (tgts : list (string * string)) (page content : string) : option string :=
  match tgts with
  | [] => Some content
  | (subdir, tpage) :: ts =>
      obind (fold_content (page_regxs subdir tpage) (page_basename tpage) (page_link subdir tpage) page content)
            (run_passes ts page)
  end.

(** Whether the target [(subdir, tpage)] may rewrite page [page]. *)
Definition may_link (page : string) (target : string * string) : bool :=
  let basename := page_basename (snd target) in
  negb (str_contains basename page) || String.eqb basename "Quattor".

(** The repository's own tests (test_make_interlinks). *)
Example test_make_interlinks_1 :
  make_interlinks [("components-grid", [("fmonagent.md", "")]);
                   ("components", [("icinga.md", "I refer to `fmonagent`.")])]
  = Some [("components-grid", [("fmonagent.md", "")]);
          ("components", [("icinga.md", "I refer to [fmonagent](../components-grid/fmonagent.md).")])].
Proof. vm_compute. reflexivity. Qed.

Example test_make_interlinks_2 :
  make_interlinks [("comps-gr", [("fmnt.md", "")]); ("comps", [("icinga.md", "refr `fmnt` and `fmnt`.")])]
  = Some [("comps-gr", [("fmnt.md", "")]);
          ("comps", [("icinga.md", "refr [fmnt](../comps-gr/fmnt.md) and [fmnt](../comps-gr/fmnt.md).")])].
Proof. vm_compute. reflexivity. Qed.

Example test_make_interlinks_4 :
  make_interlinks [("components-grid", [("fmonagent.md", "")]);
                   ("components", [("icinga.md", "I refer to " +s+ String nl "`ncm-fmonagent`.")])]
  = Some [("components-grid", [("fmonagent.md", "")]);
          ("components", [("icinga.md", "I refer to " +s+ String nl "[fmonagent](../components-grid/fmonagent.md).")])].
Proof. vm_compute. reflexivity. Qed.

Example test_make_interlinks_5 :
  make_interlinks [("components-grid", [("fmonagent.md", "")]);
                   ("components", [("icinga.md", "I refer to [NCM::Component::FreeIPA::Client](https://metacpan.org/pod/NCM::Component::FreeIPA::Client).");
                                   ("FreeIPA::Client", "Allo")])]
  = Some [("components-grid", [("fmonagent.md", "")]);
          ("components", [("icinga.md", "I refer to [FreeIPA::Client](../components/FreeIPA::Client).");
                          ("FreeIPA::Client", "Allo")])].
Proof. vm_compute. reflexivity. Qed.

Example test_make_interlinks_6 :
  let d := [("comps-grid", [("fmonagent.md", "ref to `fmonagent`.")]);
            ("comps", [("icinga.md", "ref to `icinga` and `ncm-icinga`.")])] in
  make_interlinks d = Some d.
Proof. vm_compute. reflexivity. Qed.

(* ------------------------------------------------------------------ *)
(** ** make_interlinks over a heap of dict objects

    [make_interlinks] starts with [newpages = pages] and [replace_regex_link]
    assigns [pages[subdir][page] = content] and returns [pages]: the dicts are
    shared objects.  Here they live in a heap; a location holds either the
    outer dict (section -> location of the section's dict) or a section's
    dict (page -> content). *)

Inductive hobj := HOuter (d : dict nat) | HInner (d : dict string).

Definition heap := list hobj.

Definition hget (h : heap) (l : nat) : option hobj := nth_error h l.

Fixpoint hset (h : heap) (l : nat) (o : hobj) : heap :=
  match h, l with
  | [], _ => []
  | _ :: h', O => o :: h'
  | x :: h', S l' => x :: hset h' l' o
  end.

(** [for page in pages[subdir]: content = pages[subdir][page]; if ...: pages[subdir][page] = content] *)
Fixpoint rr_pages_h (regex basename link : string) (li : nat) (ks : list string) (h : heap)
    : option heap :=
  match ks with
  | [] => Some h
  | page :: ks' =>
      match hget h li with
      | Some (HInner d) =>
          match dict_get d page with
          | Some content =>
              if (negb (str_contains basename page) || String.eqb basename "Quattor")
                 && str_contains basename content
              then match re_sub_link regex basename link content with
                   | Some c => rr_pages_h regex basename link li ks' (hset h li (HInner (dict_set d page c)))
                   | None => None
                   end
              else rr_pages_h regex basename link li ks' h
          | None => None
          end
      | _ => None
      end
  end.

Fixpoint rr_sections_h (regex basename link : string) (outer : dict nat) (h : heap) : option heap :=
  match outer with
  | [] => Some h
  | (_, li) :: rest =>
      match hget h li with
      | Some (HInner d) =>
          match rr_pages_h regex basename link li (keys d) h with
          | Some h' => rr_sections_h regex basename link rest h'
          | None => None
          end
      | _ => None
      end
  end.

(** [replace_regex_link(pages, regex, basename, link)]: mutates and returns [pages]. *)
Definition replace_regex_link_h (h : heap) (pages : nat) (regex basename link : string)
    : option (heap * nat) :=
  match hget h pages with
  | Some (HOuter outer) =>
      match rr_sections_h regex basename link outer h with
      | Some h' => Some (h', pages)
      | None => None
      end
  | _ => None
  end.

(** [for regex in regxs: newpages = replace_regex_link(newpages, regex, basename, link)];
    the state is the heap and the location held by [newpages]. *)
Fixpoint apply_regxs_h (regxs : list string) (basename link : string) (st : heap * nat)
    : option (heap * nat) :=
  match regxs with
  | [] => Some st
  | r :: rs =>
      match replace_regex_link_h (fst st) (snd st) r basename link with
      | Some st' => apply_regxs_h rs basename link st'
      | None => None
      end
  end.

Fixpoint mi_pages_h (subdir : string) (ks : list string) (st : heap * nat) : option (heap * nat) :=
  match ks with
  | [] => Some st
  | page :: ks' =>
      match apply_regxs_h (page_regxs subdir page) (page_basename page) (page_link subdir page) st with
      | Some st' => mi_pages_h subdir ks' st'
      | None => None
      end
  end.

(** [for subdir in pages: for page in pages[subdir]: ...] *)
Fixpoint mi_sections_h (outer : dict nat) (st : heap * nat) : option (heap * nat) :=
  match outer with
  | [] => Some st
  | (subdir, li) :: rest =>
      match hget (fst st) li with
      | Some (HInner d) =>
          match mi_pages_h subdir (keys d) st with
          | Some st' => mi_sections_h rest st'
          | None => None
          end
      | _ => None
      end
  end.

(** [make_interlinks(pages)] on the object at location [pages]; returns the
    heap after the call and the location of the returned object. *)
Definition make_interlinks_h (h : heap) (pages : nat) : option (heap * nat) :=
  match hget h pages with
  | Some (HOuter outer) => mi_sections_h outer (h, pages)
  | _ => None
  end.

(** The catalog value held at a location. *)
Fixpoint read_sections (h : heap) (outer : dict nat) : option sitepages :=
  match outer with
  | [] => Some []
  | (s, li) :: rest =>
      match hget h li, read_sections h rest with
      | Some (HInner d), Some sp => Some ((s, d) :: sp)
      | _, _ => None
      end
  end.

Definition read_sitepages (h : heap) (l : nat) : option sitepages :=
  match hget h l with
  | Some (HOuter outer) => read_sections h outer
  | _ => None
  end.

(** A catalog laid out as Python builds it: the outer dict at [l] maps each
    section to its own inner dict, no two sections share an inner dict, and
    the outer dict is not one of them. *)
Definition heap_wf (h : heap) (l : nat) (outer : dict nat) : Prop :=
  hget h l = Some (HOuter outer) /\ NoDup (map snd outer) /\ ~ In l (map snd outer)
  /\ Forall (fun e => exists d, hget h (snd e) = Some (HInner d) /\ NoDup (keys d)) outer.

(** [h'] keeps every inner dict of [h], with the same keys. *)
Definition same_keys (h h' : heap) : Prop :=
  forall x d, hget h x = Some (HInner d) -> exists d', hget h' x = Some (HInner d') /\ keys d' = keys d.

(* ------------------------------------------------------------------ *)
(** ** The file system

    A path is the list of its components, the root being [[]]; the root is
    always a directory.  Section names, the docs directory and page names
    are single components ([build_site_structure] replaces every "/" of a
    page name by "::"). *)

Definition path := list string.

Definition path_eqb (p q : path) : bool := if list_eq_dec string_dec p q then true else false.

Record fsys := { fs_dirs : list path; fs_files : list (path * string) }.

Definition is_dir (fs : fsys) (p : path) : bool :=
  match p with [] => true | _ => existsb (path_eqb p) (fs_dirs fs) end.

Definition is_file (fs : fsys) (p : path) : bool := existsb (path_eqb p) (map fst (fs_files fs)).

(** [os.path.exists] *)
Definition path_exists (fs : fsys) (p : path) : bool := is_dir fs p || is_file fs p.

Definition add_dir (q : path) (fs : fsys) : fsys :=
  {| fs_dirs := q :: fs_dirs fs; fs_files := fs_files fs |}.

(** The recursion of [os.makedirs]: missing ancestors are created first; an
    ancestor that is a regular file makes it raise. *)
Fixpoint makedirs_go (done rest : path) (fs : fsys) : option fsys :=
  match rest with
  | [] => Some fs
  | c :: rest' =>
      let q := done ++ [c] in
      if is_file fs q then None
      else makedirs_go q rest' (if is_dir fs q then fs else add_dir q fs)
  end.

(** [os.makedirs(p)]; an existing leaf raises. *)
Definition makedirs (fs : fsys) (p : path) : option fsys :=
  if path_exists fs p then None else makedirs_go [] p fs.

(** [with open(p, 'w') as f: f.write(content)]: the parent must be a
    directory and [p] must not be one. *)
Definition write_file (fs : fsys) (p : path) (content : string) : option fsys :=
  match p with
  | [] => None
  | _ =>
      if is_dir fs (removelast p) && negb (is_dir fs p)
      then Some {| fs_dirs := fs_dirs fs;
                   fs_files := (p, content) :: filter (fun e => negb (path_eqb (fst e) p)) (fs_files fs) |}
      else None
  end.

(** What reading the file at [p] gives. *)
Definition file_content (fs : fsys) (p : path) : option string :=
  option_map snd (find (fun e => path_eqb p (fst e)) (fs_files fs)).

(** [location] and all its ancestors are directories (and not files). *)
Definition ancestors_ok (fs : fsys) (location : path) : Prop :=
  forall q t, q ++ t = location -> is_dir fs q = true /\ is_file fs q = false.

(** An existing, empty output directory. *)
Definition empty_output_dir (fs : fsys) (location : path) : Prop :=
  ancestors_ok fs location
  /\ (forall r, r <> [] -> is_dir fs (location ++ r) = false)
  /\ (forall r, file_content fs (location ++ r) = None).

(** The trees below [loc1] in [fs1] and below [loc2] in [fs2] are the same:
    the same directories and the same (relative path, content) pairs. *)
Definition same_tree (fs1 : fsys) (loc1 : path) (fs2 : fsys) (loc2 : path) : Prop :=
  (forall r, r <> [] -> is_dir fs1 (loc1 ++ r) = is_dir fs2 (loc2 ++ r))
  /\ (forall r, file_content fs1 (loc1 ++ r) = file_content fs2 (loc2 ++ r)).

(* ------------------------------------------------------------------ *)
(** ** write_site and write_toc *)

(** [s.lower()] on a Python 2 [str] (ASCII letters only). *)
Definition lower_char (c : ascii) : ascii :=
  let n := nat_of_ascii c in
  if Nat.leb 65 n && Nat.leb n 90 then ascii_of_nat (n + 32) else c.

Fixpoint lower (s : string) : string :=
  match s with
  | EmptyString => EmptyString
  | String c s' => String (lower_char c) (lower s')
  end.

(** [key(a) < key(b)] for [key=lambda s: s.lower()] (bytewise order). *)
Definition key_lt (a b : string) : bool :=
  match String_as_OT.compare (lower a) (lower b) with Lt => true | _ => false end.

(** The order [sort_lower] produces: [a] before [b] only if [b.lower()] is
    not smaller than [a.lower()]. *)
Definition key_le (a b : string) : Prop := key_lt b a = false.

Fixpoint insert_sorted (x : string) (l : list string) : list string :=
  match l with
  | [] => [x]
  | y :: l' => if key_lt x y then x :: y :: l' else y :: insert_sorted x l'
  end.

(** [sorted(l, key=lambda s: s.lower())]: a stable sort (an element goes
    after the elements already placed whose key is not greater). *)
Definition sort_lower (l : list string) : list string :=
  fold_left (fun acc x => insert_sorted x acc) l [].

(** [toc[subdir].add(pagename)].  A Python 2 set iterates in the order of
    its hash table; the model iterates in insertion order.  After the stable
    sort by lowercase key in [write_site] this order only decides between
    names with equal lowercase keys. *)
Definition set_add (s : list string) (x : string) : list string :=
  if existsb (String.eqb x) s then s else s ++ [x].

Definition toc := dict (list string).

Definition toc_get (t : toc) (s : string) : list string :=
  match dict_get t s with Some l => l | None => [] end.

(** [for pagename, content in pages.iteritems(): write; toc[subdir].add(pagename)] *)
Fixpoint write_pages (subdir : string) (fullsubdir : path) (pages : dict string)
    (st : fsys * toc) : option (fsys * toc) :=
  match pages with
  | [] => Some st
  | (pagename, content) :: ps =>
      match write_file (fst st) (fullsubdir ++ [pagename]) content with
      | Some fs' =>
          write_pages subdir fullsubdir ps
            (fs', dict_set (snd st) subdir (set_add (toc_get (snd st) subdir) pagename))
      | None => None
      end
  end.

Fixpoint write_sections (location : path) (docsdir : string) (sp : sitepages)
    (st : fsys * toc) : option (fsys * toc) :=
  match sp with
  | [] => Some st
  | (subdir, pages) :: rest =>
      let t := dict_set (snd st) subdir [] in
      let fullsubdir := location ++ [docsdir; subdir] in
      match (if path_exists (fst st) fullsubdir then Some (fst st) else makedirs (fst st) fullsubdir) with
      | Some fs =>
          match write_pages subdir fullsubdir pages (fs, t) with
          | Some (fs', t') =>
              write_sections location docsdir rest
                (fs', dict_set t' subdir (sort_lower (toc_get t' subdir)))
          | None => None
          end
      | None => None
      end
  end.

Section Site.

(** The template engine rendering [toc.tt]; [None] is a [TemplateException]. *)
Variable render : toc -> option string.

(** [write_toc(toc, location)] *)
Definition write_toc (t : toc) (location : path) (fs : fsys) : option fsys :=
  match render t with
  | Some tocfile => write_file fs (location ++ ["mkdocs.yml"]) tocfile
  | None => None
  end.

(** [write_site(sitepages, location, docsdir)]; returns the file system after
    the call together with the table of contents handed to [write_toc]. *)
Definition write_site (fs : fsys) (location : path) (docsdir : string) (sp : sitepages)
    : option (fsys * toc) :=
  match write_sections location docsdir sp (fs, []) with
  | Some (fs', t) =>
      match write_toc t location fs' with
      | Some fs'' => Some (fs'', t)
      | None => None
      end
  | None => None
  end.

End Site.

(* ------------------------------------------------------------------ *)
(** ** check_input *)

(** The exceptions the code below lets through. *)
Inductive exn :=
| OSError (errno : string)
| TypeError
| AttributeError
| ValueError.

Inductive outcome (A : Type) := Ret (a : A) | Raise (e : exn).
Arguments Ret {A} a.
Arguments Raise {A} e.

(** What the process brings to path resolution: its working directory and
    the directories it may not search (no x permission) or not read (no r
    permission). *)
Record proc := {
  proc_cwd : path;
  proc_nosearch : list path;
  proc_noread : list path }.

Definition searchable (pr : proc) (p : path) : bool := negb (existsb (path_eqb p) (proc_nosearch pr)).

Definition readable (pr : proc) (p : path) : bool := negb (existsb (path_eqb p) (proc_noread pr)).

(** The one-byte string holding a NUL byte. *)
Definition nul : string := String "000"%char EmptyString.

(** POSIX path resolution (there are no symbolic links) of the components
    [comps] that follow the directory [cur]: a component is looked up in a
    directory, which needs search permission; "." stays, ".." goes to the
    parent (the root is its own parent); an empty component, from a doubled
    or trailing slash, only requires a directory; a component longer than
    NAME_MAX (255 bytes) is refused. *)
Fixpoint resolve_go (pr : proc) (fs : fsys) (cur : path) (comps : list string) : outcome path :=
  match comps with
  | [] => Ret cur
  | c :: rest =>
      if negb (is_dir fs cur) then Raise (OSError "ENOTDIR")
      else if String.eqb c "" then resolve_go pr fs cur rest
      else if negb (searchable pr cur) then Raise (OSError "EACCES")
      else if String.eqb c "." then resolve_go pr fs cur rest
      else if String.eqb c ".." then resolve_go pr fs (removelast cur) rest
      else if Nat.ltb 255 (String.length c) then Raise (OSError "ENAMETOOLONG")
      else if path_exists fs (cur ++ [c]) then resolve_go pr fs (cur ++ [c]) rest
      else Raise (OSError "ENOENT")
  end.

(** The path a path string names, as [os.stat] and [opendir] find it: the
    argument conversion of Python 2.7 refuses a string with a NUL byte
    ([TypeError]); the kernel refuses the empty string and a path of
    PATH_MAX (4096) bytes or more; a path not starting with "/" is resolved
    from the working directory. *)
Definition stat (pr : proc) (fs : fsys) (s : string) : outcome path :=
  if str_contains nul s then Raise TypeError
  else if String.eqb s "" then Raise (OSError "ENOENT")
  else if Nat.leb 4096 (String.length s) then Raise (OSError "ENAMETOOLONG")
  else resolve_go pr fs (if prefix "/" s then [] else proc_cwd pr) (split_go "/" s 0 "").

(** [os.path.exists(s)] (genericpath.exists): [os.stat] with [os.error]
    caught. *)
Definition exists_str (pr : proc) (fs : fsys) (s : string) : outcome bool :=
  match stat pr fs s with
  | Ret _ => Ret true
  | Raise (OSError _) => Ret false
  | Raise e => Raise e
  end.

Fixpoint strip_prefix (p q : path) : option path :=
  match p, q with
  | [], _ => Some q
  | a :: p', b :: q' => if String.eqb a b then strip_prefix p' q' else None
  | _ :: _, [] => None
  end.

Definition child_name (p q : path) : option string :=
  match strip_prefix p q with Some [c] => Some c | _ => None end.

(** [os.listdir(s)]: [opendir] resolves [s], then needs a directory it may
    read; the entries are the names of its children. *)
Definition listdir (pr : proc) (fs : fsys) (s : string) : outcome (list string) :=
  match stat pr fs s with
  | Raise e => Raise e
  | Ret p =>
      if negb (is_dir fs p) then Raise (OSError "ENOTDIR")
      else if negb (readable pr p) then Raise (OSError "EACCES")
      else Ret (nodup string_dec (flat_map (fun q => match child_name p q with Some c => [c] | None => [] end)
                                           (fs_dirs fs ++ map fst (fs_files fs))))
  end.

(** [check_input(sourceloc, outputloc)]: the logged messages and the outcome. *)
Definition check_input (pr : proc) (fs : fsys) (sourceloc outputloc : string) : list string * outcome bool :=
  let log0 := ["Checking if the given paths exist."] in
  if String.eqb sourceloc "" then (log0 ++ ["Repo location not specified."], Ret false)
  else if String.eqb outputloc "" then (log0 ++ ["output location not specified"], Ret false)
  else match exists_str pr fs sourceloc with
  | Raise e => (log0, Raise e)
  | Ret false => (log0 ++ ["Repo location " +s+ sourceloc +s+ " does not exist"], Ret false)
  | Ret true =>
      match exists_str pr fs outputloc with
      | Raise e => (log0, Raise e)
      | Ret false => (log0 ++ ["Output location " +s+ outputloc +s+ " does not exist"], Ret false)
      | Ret true =>
          match listdir pr fs outputloc with
          | Raise e => (log0, Raise e)
          | Ret [] => (log0, Ret true)
          | Ret _ => (log0 ++ ["Output location " +s+ outputloc +s+ " is not empty."], Ret false)
          end
      end
  end.

(* ------------------------------------------------------------------ *)
(** ** which and check_commands *)

Fixpoint ends_slash (s : string) : bool :=
  match s with
  | EmptyString => false
  | String c EmptyString => Ascii.eqb c "/"
  | String _ s' => ends_slash s'
  end.

(** [os.path.join(a, b)] (posixpath.join with one further component). *)
Definition posix_join (a b : string) : string :=
  if prefix "/" b then b
  else if String.eqb a "" || ends_slash a then a +s+ b
  else a +s+ "/" +s+ b.

(** One pass of the loop of [which]: [found = True] when
    [os.path.join(direct, command)] exists; an exception of
    [os.path.exists] leaves the loop, so it stays. *)
Definition which_step (pr : proc) (fs : fsys) (command : string) (found : outcome bool) (direct : string)
    : outcome bool :=
  match found with
  | Raise e => Raise e
  | Ret f =>
      match exists_str pr fs (posix_join direct command) with
      | Raise e => Raise e
      | Ret true => Ret true
      | Ret false => Ret f
      end
  end.

(** [which(command)]; [env_path] is [os.getenv("PATH")], [None] when the
    variable is unset, where [None.split(':')] raises [AttributeError]. *)
Definition which (pr : proc) (fs : fsys) (env_path : option string) (command : string) : outcome bool :=
  match env_path with
  | None => Raise AttributeError
  | Some p =>
      match py_split p ":" with
      | None => Raise ValueError
      | Some dirs => fold_left (which_step pr fs command) dirs (Ret false)
      end
  end.

Definition mvn_missing : string :=
  "The command mvn is not available on this system, please install maven.".
Definition pod2markdown_missing : string :=
  "The command pod2markdown is not available on this system, please install pod2markdown.".

(** [check_commands(runmaven)]: the logged errors and the result. *)
Definition check_commands (pr : proc) (fs : fsys) (env_path : option string) (runmaven : bool)
    : outcome (list string * bool) :=
  let rest :=
    match which pr fs env_path "pod2markdown" with
    | Raise e => Raise e
    | Ret false => Ret ([pod2markdown_missing], false)
    | Ret true => Ret ([], true)
    end in
  if runmaven then
    match which pr fs env_path "mvn" with
    | Raise e => Raise e
    | Ret false => Ret ([mvn_missing], false)
    | Ret true => rest
    end
  else rest.

(** A page name as [build_site_structure] makes them: it ends in ".md"
    and holds no "/", so it is one path component. *)
Definition md_page_name (n : string) : Prop :=
  (exists stem, n = stem +s+ ".md") /\ str_contains "/" n = false.

(* ------------------------------------------------------------------ *)
(** ** The output tree of write_site *)

(** [sitepages[section][page]] *)
Definition site_lookup (sp : sitepages) (section page : string) : option string :=
  match dict_get sp section with
  | Some pages => dict_get pages page
  | None => None
  end.

(** The page file expected at [location ++ r]: one file per page. *)
Definition expected_page (docsdir : string) (sp : sitepages) (r : path) : option string :=
  match r with
  | [d; section; page] => if String.eqb d docsdir then site_lookup sp section page else None
  | _ => None
  end.

(** The file expected at [location ++ r] after [write_site] rendered
    [tocfile]: [mkdocs.yml] and one file per page. *)
Definition expected_file (docsdir : string) (sp : sitepages) (tocfile : string) (r : path)
    : option string :=
  if path_eqb r ["mkdocs.yml"] then Some tocfile else expected_page docsdir sp r.

(** The directories expected below [location]: the docs directory (once
    there is a section) and one directory per section. *)
Definition expected_dir (docsdir : string) (sp : sitepages) (r : path) : bool :=
  match r with
  | [d] => String.eqb d docsdir && negb (Nat.eqb (length sp) 0)
  | [d; section] => String.eqb d docsdir && existsb (String.eqb section) (keys sp)
  | _ => false
  end.

(** A name [os.path.join] appends as one new path component below the
    directory it is joined to, and that [os.makedirs] and [open] accept:
    not empty, not "." or "..", no "/", no NUL byte, at most NAME_MAX (255)
    bytes. *)
Definition plain_name (n : string) : bool :=
  negb (String.eqb n "") && negb (String.eqb n ".") && negb (String.eqb n "..")
  && negb (str_contains "/" n) && negb (str_contains nul n)
  && Nat.leb (String.length n) 255.

(** The docs directory and every section and page name are plain names. *)
Definition plain_site (docsdir : string) (sp : sitepages) : Prop :=
  plain_name docsdir = true /\
  Forall (fun e => plain_name (fst e) = true /\ Forall (fun pg => plain_name (fst pg) = true) (snd e)) sp.

(* ================================================================== *)
(** * Properties *)

(* ------------------------------------------------------------------ *)
(** ** Strings *)

Fixpoint sdrop (n : nat) (s : string) : string :=
  match n, s with
  | O, _ => s
  | S n', String _ s' => sdrop n' s'
  | S _, EmptyString => EmptyString
  end.

Lemma sapp_assoc (a b c : string) : (a +s+ b) +s+ c = a +s+ (b +s+ c).
Proof. induction a; simpl; congruence. Qed.

Lemma sapp_nil_r (a : string) : a +s+ "" = a.
Proof. induction a; simpl; congruence. Qed.

Lemma slength_app (a b : string) : String.length (a +s+ b) = String.length a + String.length b.
Proof. induction a; simpl; congruence. Qed.

Lemma prefix_app (t r : string) : prefix t (t +s+ r) = true.
Proof.
  induction t; simpl; [destruct r; reflexivity|].
  destruct (ascii_dec a a); [assumption | congruence].
Qed.

Lemma prefix_split (t s : string) :
  prefix t s = true -> s = t +s+ sdrop (String.length t) s.
Proof.
  revert s; induction t as [|a t IH]; intros s H; simpl; [reflexivity|].
  destruct s as [|b s]; simpl in H; [discriminate|].
  destruct (ascii_dec a b); [subst; f_equal; apply IH; assumption | discriminate].
Qed.

Lemma prefix_app_inv (t a b : string) :
  prefix t (a +s+ b) = true -> prefix t a = true \/ exists c, a +s+ c = t.
Proof.
  revert t; induction a as [|x a IH]; intros t H; simpl in *.
  - right; exists t; reflexivity.
  - destruct t as [|y t]; [left; reflexivity|].
    destruct (ascii_dec y x); [subst|discriminate].
    destruct (IH t H) as [H'|[c Hc]]; [left|right; exists c; subst]; simpl;
      try (destruct (ascii_dec x x); [|congruence]); auto.
Qed.

Lemma contains_spec (t s : string) :
  str_contains t s = true <-> exists x y, s = x +s+ t +s+ y.
Proof.
  split.
  - induction s as [|c s IH]; intros H; simpl in H.
    + destruct t; simpl in H; [exists "", ""; reflexivity | discriminate].
    + apply orb_true_iff in H as [H|H].
      * exists "", (sdrop (String.length t) (String c s)); simpl.
        apply prefix_split; assumption.
      * destruct (IH H) as [x [y ->]]; exists (String c x), y; reflexivity.
  - intros [x [y ->]]; induction x as [|c x IH]; simpl.
    + assert (Hp : prefix t (t +s+ y) = true) by apply prefix_app.
      revert Hp; destruct (t +s+ y); simpl; intros Hp; rewrite Hp; reflexivity.
    + rewrite IH, orb_true_r; reflexivity.
Qed.

Lemma contains_app_r (t a b : string) : str_contains t b = true -> str_contains t (a +s+ b) = true.
Proof. intros H; induction a; simpl; [assumption|]. rewrite IHa, orb_true_r; reflexivity. Qed.

Lemma slength_nonempty (t : string) : t <> "" -> String.length t <> 0.
Proof. destruct t; simpl; congruence. Qed.

Lemma sdrop_length (n : nat) (s : string) : String.length (sdrop n s) = String.length s - n.
Proof. revert s; induction n; destruct s; simpl; auto. Qed.

Lemma prefix_length (t s : string) : prefix t s = true -> String.length t <= String.length s.
Proof.
  intros H; rewrite (prefix_split t s H), slength_app; lia.
Qed.

Lemma split_go_nonnil (t s : string) : forall k cur, split_go t s k cur <> [].
Proof.
  induction s as [|c s IH]; intros k cur; [cbn; congruence|].
  destruct k; cbn [split_go]; [destruct (prefix t (String c s)); [congruence|apply IH]|apply IH].
Qed.

Lemma last_cons_nonnil {A} (a : A) (l : list A) (d : A) : l <> [] -> last (a :: l) d = last l d.
Proof. destruct l; [congruence|reflexivity]. Qed.

(** The last piece of [s.split(t)] follows an occurrence of [t] and holds
    none: it is the text after the last occurrence found by the scan. *)
Lemma split_go_last (t : string) : t <> "" ->
  forall s k cur, k <= String.length s ->
  let L := last (split_go t s k cur) "" in
  (L = cur +s+ sdrop k s /\ str_contains t (sdrop k s) = false) \/
  (exists x, sdrop k s = x +s+ t +s+ L /\ str_contains t L = false).
Proof.
  intros Ht s; induction s as [|c s IH]; intros k cur Hk L; subst L.
  - destruct k; [|simpl in Hk; lia]. left; simpl; split; [symmetry; apply sapp_nil_r|].
    destruct t; [congruence|reflexivity].
  - destruct k as [|k].
    + change (split_go t (String c s) 0 cur) with
        (if prefix t (String c s) then cur :: split_go t s (String.length t - 1) ""
         else split_go t s 0 (cur +s+ String c "")).
      change (sdrop 0 (String c s)) with (String c s).
      destruct (prefix t (String c s)) eqn:Hp.
      * rewrite last_cons_nonnil by apply split_go_nonnil.
        assert (Hl := prefix_length _ _ Hp). simpl in Hl.
        assert (Hlen : String.length t - 1 <= String.length s)
          by (apply slength_nonempty in Ht; lia).
        assert (Hd : sdrop (String.length t - 1) s = sdrop (String.length t) (String c s)).
        { destruct t as [|a t]; [congruence|]. simpl. rewrite Nat.sub_0_r. reflexivity. }
        assert (Hs := prefix_split _ _ Hp). rewrite <- Hd in Hs.
        right.
        destruct (IH (String.length t - 1) "" Hlen) as [[HL Hc]|[x [Hx Hc]]].
        -- exists "". simpl. rewrite HL. simpl. split; [exact Hs | exact Hc].
        -- exists (t +s+ x). split; [|exact Hc].
           rewrite sapp_assoc, <- Hx. exact Hs.
      * simpl in Hk. destruct (IH 0 (cur +s+ String c "") ltac:(lia)) as [[HL Hc]|[x [Hx Hc]]].
        -- left. simpl sdrop in *. split.
           ++ rewrite HL, sapp_assoc; reflexivity.
           ++ cbn [str_contains]. rewrite Hp, Hc; reflexivity.
        -- right. exists (String c x). simpl sdrop in *. split; [cbn; f_equal; exact Hx|exact Hc].
    + simpl in Hk. simpl split_go. simpl sdrop. apply IH; lia.
Qed.

Lemma sapp_cancel_l (a b c : string) : a +s+ b = a +s+ c -> b = c.
Proof. induction a; simpl; intros H; [assumption|]. injection H; auto. Qed.

Lemma sapp_cancel_r_tail (p t a b : string) : p +s+ t +s+ a = p +s+ t +s+ b -> a = b.
Proof. intros H. apply sapp_cancel_l in H. apply sapp_cancel_l in H. exact H. Qed.

(* ------------------------------------------------------------------ *)
(** ** build_site_structure: canonical names *)

(** The page name the claim describes: the suffix after the first
    occurrence of the marker, extension stripped, "/" made "::", ".md"
    appended. *)
Fixpoint suffix_after (t s : string) : option string :=
  if prefix t s then Some (sdrop (String.length t) s)
  else match s with
       | EmptyString => None
       | String _ s' => suffix_after t s'
       end.

Definition first_occurrence_name (t p : string) : option string :=
  option_map (fun suf => replace_sep (fst (splitext suf)) +s+ ".md") (suffix_after t p).

Lemma place_page_found (sec source markdown : string) (ts : list string) (sp : sitepages) :
  place_page sec source markdown ts true sp = Some (sp, true).
Proof. induction ts; simpl; [reflexivity|]. rewrite andb_false_r. exact IHts. Qed.

Lemma place_page_skip (sec source markdown : string) (tpre rest : list string) (sp : sitepages) :
  Forall (fun t' => str_contains t' source = false) tpre ->
  place_page sec source markdown (tpre ++ rest) false sp = place_page sec source markdown rest false sp.
Proof.
  intros H; induction H as [|t' tpre Ht' _ IH]; simpl; [reflexivity|].
  rewrite Ht'. exact IH.
Qed.

Lemma py_split_nonempty (s t : string) : t <> "" -> py_split s t = Some (split_go t s 0 "").
Proof. intros Ht. unfold py_split. destruct (String.eqb_spec t ""); congruence. Qed.

(** C1 (as amended).  The name under which [build_site_structure] stores a
    page is built from the first target of the list that occurs in the
    source path (when that target is not empty, which [str.split]
    requires): the part of the path after the LAST occurrence of that
    target found by [str.split]'s left-to-right scan (text preceded by the
    target and holding no occurrence of it), extension stripped by
    [splitext], "/" replaced by "::", ".md" appended.  When the target
    occurs once, this is the part after that occurrence. *)
Theorem canonical_name_after_last_occurrence :
  forall (sec source markdown t : string) (tpre tpost : list string)
         (sp : sitepages) (inner : dict string),
  Forall (fun t' => str_contains t' source = false) tpre ->
  str_contains t source = true ->
  t <> "" ->
  dict_get sp sec = Some inner ->
  exists x L,
    source = x +s+ t +s+ L /\ str_contains t L = false /\
    (exists pieces, py_split source t = Some pieces /\ last pieces "" = L) /\
    place_page sec source markdown (tpre ++ t :: tpost) false sp
      = Some (dict_set sp sec (dict_set inner (replace_sep (fst (splitext L)) +s+ ".md") markdown), true) /\
    (forall pre suf, source = pre +s+ t +s+ suf ->
       (forall pre' suf', source = pre' +s+ t +s+ suf' -> pre' = pre) -> L = suf).
Proof.
  intros sec source markdown t tpre tpost sp inner Hpre Hin Ht Hsec.
  destruct (split_go_last t Ht source 0 "" (Nat.le_0_l _)) as [[_ Hc]|[x [Hx Hc]]];
    simpl sdrop in *; [congruence|].
  set (L := last (split_go t source 0 "") "") in *.
  exists x, L. split; [exact Hx|]. split; [exact Hc|]. split.
  { exists (split_go t source 0 ""). split; [apply py_split_nonempty; exact Ht | reflexivity]. }
  split.
  - rewrite place_page_skip by exact Hpre. simpl. rewrite Hin. simpl.
    unfold new_name. rewrite py_split_nonempty by exact Ht. rewrite Hsec.
    apply place_page_found.
  - intros pre suf Hs Huniq.
    assert (Hxp : x = pre) by (apply Huniq with (suf' := L); exact Hx).
    subst x. rewrite Hs in Hx. symmetry. apply sapp_cancel_r_tail with (p := pre) (t := t).
    exact Hx.
Qed.

Lemma canonical_name_after_last_occurrence_witness :
  exists x L,
    "/tmp/qdoc/src/CCM/target/doc/pod/EDG/WP4/CCM/Fetch/Download.pod" = x +s+ "EDG/WP4/CCM/" +s+ L /\
    str_contains "EDG/WP4/CCM/" L = false /\
    (exists pieces, py_split "/tmp/qdoc/src/CCM/target/doc/pod/EDG/WP4/CCM/Fetch/Download.pod" "EDG/WP4/CCM/" = Some pieces
                    /\ last pieces "" = L) /\
    place_page "CCM" "/tmp/qdoc/src/CCM/target/doc/pod/EDG/WP4/CCM/Fetch/Download.pod" "# NAME"
      ([] ++ "EDG/WP4/CCM/" :: []) false [("CCM", [])]
      = Some (dict_set [("CCM", [])] "CCM" (dict_set [] (replace_sep (fst (splitext L)) +s+ ".md") "# NAME"), true) /\
    (forall pre suf, "/tmp/qdoc/src/CCM/target/doc/pod/EDG/WP4/CCM/Fetch/Download.pod" = pre +s+ "EDG/WP4/CCM/" +s+ suf ->
       (forall pre' suf', "/tmp/qdoc/src/CCM/target/doc/pod/EDG/WP4/CCM/Fetch/Download.pod" = pre' +s+ "EDG/WP4/CCM/" +s+ suf' -> pre' = pre) -> L = suf).
Proof.
  apply (canonical_name_after_last_occurrence "CCM"
           "/tmp/qdoc/src/CCM/target/doc/pod/EDG/WP4/CCM/Fetch/Download.pod" "# NAME" "EDG/WP4/CCM/"
           [] [] [("CCM", [])] []).
  - constructor.
  - vm_compute. reflexivity.
  - discriminate.
  - reflexivity.
Defined.

(** C1 counterexample: with the marker "/components/" occurring twice in
    the path, the page is stored as "bar.md" (text after the last
    occurrence), not under the name built from the text after the first
    occurrence, "foo::components::bar.md". *)
Lemma canonical_name_first_occurrence_fails :
  let src := "/src/ncm-foo/target/pan/components/foo/components/bar.pan" in
  build_site_structure [("configuration-modules-core", [(src, "M")])]
    [("configuration-modules-core", {| sitesection := "components"; targets := ["/components/"] |})]
  = Some ([("components", [("bar.md", "M")])], [])
  /\ first_occurrence_name "/components/" src = Some "foo::components::bar.md".
Proof. split; vm_compute; reflexivity. Qed.

(* ------------------------------------------------------------------ *)
(** ** build_site_structure: which pages end up in SitePages *)

Lemma dict_get_set_eq {V} (d : dict V) (k : string) (v : V) : dict_get (dict_set d k v) k = Some v.
Proof.
  induction d as [|[k' v'] d IH]; simpl; [rewrite String.eqb_refl; reflexivity|].
  destruct (String.eqb k k') eqn:E; simpl; [rewrite String.eqb_refl; reflexivity|].
  rewrite E. exact IH.
Qed.

Lemma dict_get_set_neq {V} (d : dict V) (k k' : string) (v : V) :
  k' <> k -> dict_get (dict_set d k v) k' = dict_get d k'.
Proof.
  intros Hne; induction d as [|[k0 v0] d IH]; simpl.
  - destruct (String.eqb_spec k' k); congruence.
  - destruct (String.eqb_spec k k0) as [->|Hk]; simpl.
    + destruct (String.eqb_spec k' k0); congruence.
    + destruct (String.eqb k' k0); [reflexivity|exact IH].
Qed.

(** The target [build_site_structure] uses for a source path, and the name
    the page gets. *)
Fixpoint first_target (tgts : list string) (source : string) : option string :=
  match tgts with
  | [] => None
  | t :: ts => if str_contains t source then Some t else first_target ts source
  end.

Definition page_name (tgts : list string) (source : string) : option string :=
  match first_target tgts source with
  | Some t => new_name source t
  | None => None
  end.

Definition matched_names (tgts : list string) (pages : dict string) : list string :=
  flat_map (fun e => match page_name tgts (fst e) with Some n => [n] | None => [] end) pages.

Lemma place_page_spec (sec source markdown : string) (tgts : list string) (sp sp' : sitepages) (found : bool) :
  place_page sec source markdown tgts false sp = Some (sp', found) ->
  (found = false /\ first_target tgts source = None /\ sp' = sp) \/
  (found = true /\ exists n inner, page_name tgts source = Some n /\ dict_get sp sec = Some inner /\
                                   sp' = dict_set sp sec (dict_set inner n markdown)).
Proof.
  unfold page_name. induction tgts as [|t ts IH]; simpl; intros H.
  - injection H as <- <-. left; auto.
  - destruct (str_contains t source); simpl in *.
    + destruct (new_name source t) as [n|] eqn:En; [|discriminate].
      destruct (dict_get sp sec) as [inner|] eqn:Ei; [|discriminate].
      rewrite place_page_found in H. injection H as <- <-.
      right; split; [reflexivity|]. exists n, inner. auto.
    + apply IH; exact H.
Qed.

(** Processing the pages of one repository touches only its section, and
    leaves there each matched page under its name when no two matched
    pages share a name. *)
Lemma process_pages_spec (sec : string) (tgts : list string) (pages : dict string) :
  forall sp log sp' log' inner,
  process_pages sec tgts pages (sp, log) = Some (sp', log') ->
  dict_get sp sec = Some inner ->
  exists inner',
    dict_get sp' sec = Some inner' /\
    (forall s, s <> sec -> dict_get sp' s = dict_get sp s) /\
    (forall n, ~ In n (matched_names tgts pages) -> dict_get inner' n = dict_get inner n) /\
    (NoDup (matched_names tgts pages) ->
     forall source md n, In (source, md) pages -> page_name tgts source = Some n ->
     dict_get inner' n = Some md).
Proof.
  induction pages as [|[source md] ps IH]; intros sp log sp' log' inner H Hsec; simpl in H.
  - injection H as <- <-. exists inner. repeat split; auto. intros _ ? ? ? [].
  - destruct (place_page sec source md tgts false sp) as [[sp1 found]|] eqn:Ep; [|discriminate].
    destruct (place_page_spec _ _ _ _ _ _ _ Ep) as [[-> [Hft ->]]|[-> [n0 [inner0 [Hn0 [Hi0 ->]]]]]].
    + destruct (IH _ _ _ _ _ H Hsec) as [inner' [H1 [H2 [H3 H4]]]].
      exists inner'. split; [exact H1|]. split; [exact H2|].
      assert (Hpn : page_name tgts source = None) by (unfold page_name; rewrite Hft; reflexivity).
      unfold matched_names in *. simpl. rewrite Hpn. simpl. split; [exact H3|].
      intros Hnd s0 m0 n [Heq|Hin] Hpn0; [injection Heq as -> ->; congruence|].
      apply (H4 Hnd s0 m0 n Hin Hpn0).
    + rewrite Hi0 in Hsec. injection Hsec as ->.
      destruct (IH _ _ _ _ (dict_set inner n0 md) H ltac:(apply dict_get_set_eq))
        as [inner' [H1 [H2 [H3 H4]]]].
      exists inner'. split; [exact H1|]. split.
      { intros s Hs. rewrite H2 by exact Hs. apply dict_get_set_neq. exact Hs. }
      unfold matched_names in *. simpl. rewrite Hn0. simpl. split.
      * intros n Hn. rewrite H3 by tauto. apply dict_get_set_neq. intros ->. tauto.
      * intros Hnd s0 m0 n [Heq|Hin] Hpn0.
        -- injection Heq as -> ->. rewrite Hpn0 in Hn0. injection Hn0 as ->.
           inversion Hnd as [|? ? Hnotin _]. rewrite H3 by exact Hnotin. apply dict_get_set_eq.
        -- inversion Hnd. apply (H4 ltac:(assumption) s0 m0 n Hin Hpn0).
Qed.

Definition section_of (rm : dict repo_desc) (e : string * dict string) : option string :=
  option_map sitesection (dict_get rm (fst e)).

Lemma process_repos_spec (rm : dict repo_desc) (ml : dict (dict string)) :
  forall st st', process_repos rm ml st = Some st' ->
  (forall s, ~ In (Some s) (map (section_of rm) ml) -> dict_get (fst st') s = dict_get (fst st) s) /\
  (NoDup (map (section_of rm) ml) ->
   (forall repo mds desc, In (repo, mds) ml -> dict_get rm repo = Some desc ->
                          NoDup (matched_names (targets desc) mds)) ->
   forall repo mds desc source md n, In (repo, mds) ml -> dict_get rm repo = Some desc ->
   In (source, md) mds -> page_name (targets desc) source = Some n ->
   exists d, dict_get (fst st') (sitesection desc) = Some d /\ dict_get d n = Some md).
Proof.
  induction ml as [|[repo mds] es IH]; intros st st' H; cbn [process_repos] in H.
  - injection H as <-. split; [reflexivity|]. intros _ _ ? ? ? ? ? ? [].
  - destruct (process_repo rm st (repo, mds)) as [st1|] eqn:E1; [|discriminate].
    unfold process_repo in E1.
    destruct (dict_get rm repo) as [desc|] eqn:Ed; [|discriminate].
    destruct st1 as [sp1 log1].
    destruct (process_pages_spec _ _ _ _ _ _ _ [] E1 ltac:(apply dict_get_set_eq))
      as [inner' [H1 [H2 [_ H4]]]].
    destruct (IH _ _ H) as [IHa IHb].
    assert (Hsec : section_of rm (repo, mds) = Some (sitesection desc))
      by (unfold section_of; simpl; rewrite Ed; reflexivity).
    simpl map. rewrite Hsec. split.
    + intros s Hs. rewrite IHa by (intros Hin; apply Hs; right; exact Hin). simpl fst.
      rewrite H2 by (intros ->; apply Hs; left; reflexivity).
      apply dict_get_set_neq. intros ->. apply Hs; left; reflexivity.
    + intros Hnd Hcoll repo0 mds0 desc0 source md n [Heq|Hin] Hd0 Hsrc Hpn.
      * injection Heq as <- <-. rewrite Ed in Hd0. injection Hd0 as <-.
        inversion Hnd as [|? ? Hnotin _].
        exists inner'. rewrite IHa by exact Hnotin. simpl fst. split; [exact H1|].
        apply (H4 (Hcoll repo mds desc (or_introl eq_refl) Ed) source md n Hsrc Hpn).
      * inversion Hnd as [|? ? _ Hnd'].
        apply (IHb Hnd' (fun r m d Hi => Hcoll r m d (or_intror Hi)) repo0 mds0 desc0 source md n Hin Hd0 Hsrc Hpn).
Qed.

(** C2 (as amended).  When [build_site_structure] returns (no exception),
    each site section is fed by one repository of the input, and no two
    matched pages of a repository get the same canonical name, every
    matched (source path, markdown) pair of every repository is present:
    SitePages[sitesection][canonical name] is its markdown. *)
Theorem matched_pages_present :
  forall (ml : dict (dict string)) (rm : dict repo_desc) (sp : sitepages) (log : list err),
  build_site_structure ml rm = Some (sp, log) ->
  NoDup (map (section_of rm) ml) ->
  (forall repo mds desc, In (repo, mds) ml -> dict_get rm repo = Some desc ->
                         NoDup (matched_names (targets desc) mds)) ->
  forall repo mds desc source md n,
  In (repo, mds) ml -> dict_get rm repo = Some desc ->
  In (source, md) mds -> page_name (targets desc) source = Some n ->
  exists d, dict_get sp (sitesection desc) = Some d /\ dict_get d n = Some md.
Proof.
  intros ml rm sp log H. apply (process_repos_spec rm ml _ _ H).
Qed.

(** Closes [NoDup l] for a concrete list of distinct constructor terms. *)
Ltac nodup_tac :=
  repeat (apply NoDup_cons; [simpl; let H := fresh in intros H; repeat destruct H as [H|H]; try discriminate; try contradiction|]);
  apply NoDup_nil.

Lemma matched_pages_present_witness :
  exists d, dict_get [("CCM", [("Fetch::Download.md", "# NAME")]);
                      ("components", [("profile::functions.md", "Functions"); ("fmonagent.md", "Hello");
                                      ("aii::freeipa::schema.md", "Hello2")])] "components" = Some d
            /\ dict_get d "fmonagent.md" = Some "Hello".
Proof.
  apply (matched_pages_present test_markdown test_repomap _ []
           test_build_site_structure ltac:(vm_compute; nodup_tac)
           ltac:(intros repo mds desc Hin Hd; destruct Hin as [Hin|[Hin|[]]]; injection Hin as <- <-;
                 simpl in Hd; injection Hd as <-; vm_compute; nodup_tac)
           "configuration-modules-core"
           [("/tmp/doc/src/configuration-modules-core/ncm-profile/target/pan/components/profile/functions.pan", "Functions");
            ("/tmp/doc/src/configuration-modules-core/ncm-fmonagent/target/doc/pod/NCM/Component/fmonagent.pod", "Hello");
            ("/tmp/doc/src/configuration-modules-core/ncm-freeipa/target/pan/quattor/aii/freeipa/schema.pan", "Hello2")]
           {| sitesection := "components"; targets := ["/NCM/Component/"; "/components/"; "/pan/quattor/"] |}
           "/tmp/doc/src/configuration-modules-core/ncm-fmonagent/target/doc/pod/NCM/Component/fmonagent.pod"
           "Hello" "fmonagent.md").
  - right; left; reflexivity.
  - reflexivity.
  - right; left; reflexivity.
  - vm_compute. reflexivity.
Defined.

(** C2 counterexample.  (1) Two repositories mapped to the section
    "components": the second one resets [sitepages["components"]] to [{}]
    and the first repository's page "a.md" is gone.  (2) Two pages of one
    repository named "a.md": the later one overwrites the earlier. *)
Lemma matched_pages_lost :
  build_site_structure
    [("core", [("/x/components/a.pan", "A")]); ("grid", [("/y/components/b.pan", "B")])]
    [("core", {| sitesection := "components"; targets := ["/components/"] |});
     ("grid", {| sitesection := "components"; targets := ["/components/"] |})]
  = Some ([("components", [("b.md", "B")])], [])
  /\
  build_site_structure
    [("core", [("/x/components/a.pan", "A1"); ("/y/components/a.pod", "A2")])]
    [("core", {| sitesection := "components"; targets := ["/components/"] |})]
  = Some ([("components", [("a.md", "A2")])], []).
Proof. split; vm_compute; reflexivity. Qed.

(* ------------------------------------------------------------------ *)
(** ** build_site_structure: unmatched pages *)

Lemma process_pages_app (sec : string) (tgts : list string) (a b : dict string) (st : sitepages * list err) :
  process_pages sec tgts (a ++ b) st = obind (process_pages sec tgts a st) (process_pages sec tgts b).
Proof.
  revert st; induction a as [|p a IH]; intros st; simpl; [reflexivity|].
  destruct (process_page sec tgts st p); [apply IH|reflexivity].
Qed.

Lemma process_repos_app (rm : dict repo_desc) (a b : dict (dict string)) (st : sitepages * list err) :
  process_repos rm (a ++ b) st = obind (process_repos rm a st) (process_repos rm b).
Proof.
  revert st; induction a as [|e a IH]; intros st; simpl; [reflexivity|].
  destruct (process_repo rm st e); [apply IH|reflexivity].
Qed.

(** The pages computed do not depend on the log accumulated so far. *)
Lemma process_pages_fst (sec : string) (tgts : list string) (pages : dict string) :
  forall sp l1 l2,
  option_map fst (process_pages sec tgts pages (sp, l1)) = option_map fst (process_pages sec tgts pages (sp, l2)).
Proof.
  induction pages as [|[source md] ps IH]; intros sp l1 l2; simpl; [reflexivity|].
  destruct (place_page sec source md tgts false sp) as [[sp' found]|]; [apply IH|reflexivity].
Qed.

Lemma process_pages_fst_eq (sec : string) (tgts : list string) (pages : dict string) (st1 st2 : sitepages * list err) :
  forall (r1 r2 : option (sitepages * list err)),
  process_pages sec tgts pages st1 = r1 -> process_pages sec tgts pages st2 = r2 ->
  fst st1 = fst st2 -> option_map fst r1 = option_map fst r2.
Proof.
  intros r1 r2 <- <- Hf. destruct st1 as [sp l1], st2 as [sp' l2]. simpl in Hf; subst sp'.
  apply process_pages_fst.
Qed.

Lemma process_repos_fst (rm : dict repo_desc) (ml : dict (dict string)) :
  forall sp l1 l2,
  option_map fst (process_repos rm ml (sp, l1)) = option_map fst (process_repos rm ml (sp, l2)).
Proof.
  induction ml as [|[repo mds] es IH]; intros sp l1 l2; simpl; [reflexivity|].
  unfold process_repo; cbn [fst snd].
  destruct (dict_get rm repo) as [desc|]; [|reflexivity].
  destruct (process_pages (sitesection desc) (targets desc) mds (dict_set sp (sitesection desc) [], l1))
    as [[sp1 l1']|] eqn:E1;
    destruct (process_pages (sitesection desc) (targets desc) mds (dict_set sp (sitesection desc) [], l2))
    as [[sp2 l2']|] eqn:E2;
    pose proof (process_pages_fst_eq _ _ _ _ _ _ _ E1 E2 eq_refl) as E;
    simpl in E |- *; try discriminate.
  - injection E as <-. apply IH.
  - reflexivity.
Qed.

(** The log only grows. *)
Lemma process_pages_log (sec : string) (tgts : list string) (pages : dict string) :
  forall st st', process_pages sec tgts pages st = Some st' -> exists l, snd st' = snd st ++ l.
Proof.
  induction pages as [|[source md] ps IH]; intros [sp log] st' H; simpl in H.
  - injection H as <-. exists []. symmetry; apply app_nil_r.
  - destruct (place_page sec source md tgts false sp) as [[sp1 found]|]; [|discriminate].
    destruct (IH _ _ H) as [l Hl]. simpl in Hl. rewrite Hl.
    destruct found; [exists l; reflexivity|]. exists ((source, tgts) :: l). rewrite <- app_assoc. reflexivity.
Qed.

Lemma process_repos_log (rm : dict repo_desc) (ml : dict (dict string)) :
  forall st st', process_repos rm ml st = Some st' -> exists l, snd st' = snd st ++ l.
Proof.
  induction ml as [|[repo mds] es IH]; intros st st' H; cbn [process_repos] in H.
  - injection H as <-. exists []. symmetry; apply app_nil_r.
  - destruct (process_repo rm st (repo, mds)) as [st1|] eqn:E; [|discriminate].
    unfold process_repo in E. destruct (dict_get rm repo); [|discriminate].
    destruct (process_pages_log _ _ _ _ _ E) as [l1 H1]. destruct (IH _ _ H) as [l2 H2].
    exists (l1 ++ l2). rewrite H2, H1. simpl. symmetry; apply app_assoc.
Qed.

Lemma place_page_unmatched (sec source md : string) (tgts : list string) (sp : sitepages) :
  Forall (fun t => str_contains t source = false) tgts ->
  place_page sec source md tgts false sp = Some (sp, false).
Proof. intros H; induction H; simpl; [reflexivity|]. rewrite H; exact IHForall. Qed.

(** C6.  A source path that no target marker of its repository matches is
    reported as an error ("No suitable target found for <source> in
    <targets>.") and contributes nothing: the SitePages computed, and
    whether the call succeeds at all, are those of the same input with that
    page removed, so every other page is handled as before. *)
Theorem unmatched_page_dropped :
  forall (ml_pre ml_post : dict (dict string)) (repo source md : string) (pre post : dict string)
         (rm : dict repo_desc) (desc : repo_desc),
  dict_get rm repo = Some desc ->
  Forall (fun t => str_contains t source = false) (targets desc) ->
  option_map fst (build_site_structure (ml_pre ++ (repo, pre ++ (source, md) :: post) :: ml_post) rm)
  = option_map fst (build_site_structure (ml_pre ++ (repo, pre ++ post) :: ml_post) rm)
  /\ (forall sp log, build_site_structure (ml_pre ++ (repo, pre ++ (source, md) :: post) :: ml_post) rm = Some (sp, log) ->
                     In (source, targets desc) log).
Proof.
  intros ml_pre ml_post repo source md pre post rm desc Hd Hnone.
  unfold build_site_structure. rewrite !process_repos_app.
  destruct (process_repos rm ml_pre ([], [])) as [[sp0 log0]|]; simpl; [|split; [reflexivity|discriminate]].
  rewrite Hd. rewrite !process_pages_app.
  destruct (process_pages (sitesection desc) (targets desc) pre (dict_set sp0 (sitesection desc) [], log0))
    as [[sp1 log1]|]; simpl; [|split; [reflexivity|discriminate]].
  rewrite place_page_unmatched by exact Hnone. split.
  - generalize (process_pages_fst (sitesection desc) (targets desc) post sp1 (log1 ++ [(source, targets desc)]) log1).
    destruct (process_pages _ _ post (sp1, log1 ++ _)) as [[sp2 l2]|];
      destruct (process_pages _ _ post (sp1, log1)) as [[sp3 l3]|]; simpl; intros E; try discriminate;
      [|reflexivity].
    injection E as <-. apply process_repos_fst.
  - intros sp log H.
    destruct (process_pages _ _ post (sp1, log1 ++ _)) as [st2|] eqn:E2; [|discriminate].
    destruct (process_pages_log _ _ _ _ _ E2) as [l2 H2]. destruct (process_repos_log _ _ _ _ H) as [l3 H3].
    simpl in H2, H3. rewrite H3, H2. apply in_or_app; left. apply in_or_app; left.
    apply in_or_app; right. left; reflexivity.
Qed.

Lemma unmatched_page_dropped_witness :
  option_map fst (build_site_structure ([] ++ ("CCM", [] ++ ("/tmp/x/README.pod", "R") :: []) :: []) test_repomap)
  = option_map fst (build_site_structure ([] ++ ("CCM", [] ++ []) :: []) test_repomap)
  /\ (forall sp log, build_site_structure ([] ++ ("CCM", [] ++ ("/tmp/x/README.pod", "R") :: []) :: []) test_repomap
                     = Some (sp, log) -> In ("/tmp/x/README.pod", ["EDG/WP4/CCM/"]) log).
Proof.
  apply (unmatched_page_dropped [] [] "CCM" "/tmp/x/README.pod" "R" [] [] test_repomap
           {| sitesection := "CCM"; targets := ["EDG/WP4/CCM/"] |}).
  - reflexivity.
  - repeat constructor.
Defined.

(* ------------------------------------------------------------------ *)
(** ** make_interlinks works page by page *)

Lemma rewrite_pages_map (r b l : string) (d : dict string) :
  rewrite_pages r b l d = map_page_contents (rewrite_content r b l) d.
Proof.
  induction d as [|[p c] ps IH]; simpl; [reflexivity|]. unfold obind.
  destruct (rewrite_content r b l p c); [rewrite IH|]; reflexivity.
Qed.

Lemma replace_regex_link_map (sp : sitepages) (r b l : string) :
  replace_regex_link sp r b l = map_pages (rewrite_content r b l) sp.
Proof.
  induction sp as [|[s d] rest IH]; simpl; [reflexivity|]. unfold obind.
  rewrite rewrite_pages_map. destruct (map_page_contents _ d); [rewrite IH|]; reflexivity.
Qed.

Lemma map_page_contents_comp (f g : string -> string -> option string) (d : dict string) :
  obind (map_page_contents f d) (map_page_contents g)
  = map_page_contents (fun p c => obind (f p c) (g p)) d.
Proof.
  induction d as [|[p c] ps IH]; simpl; [reflexivity|]. unfold obind in *.
  destruct (f p c) as [c1|]; [|reflexivity].
  destruct (map_page_contents f ps) as [ps'|]; simpl.
  - rewrite <- IH. reflexivity.
  - rewrite <- IH. destruct (g p c1); reflexivity.
Qed.

Lemma map_pages_comp (f g : string -> string -> option string) (sp : sitepages) :
  obind (map_pages f sp) (map_pages g) = map_pages (fun p c => obind (f p c) (g p)) sp.
Proof.
  induction sp as [|[s d] rest IH]; simpl; [reflexivity|].
  rewrite <- map_page_contents_comp. unfold obind in *.
  destruct (map_page_contents f d) as [d1|]; [|reflexivity].
  destruct (map_pages f rest) as [r1|]; simpl.
  - rewrite <- IH. reflexivity.
  - rewrite <- IH. destruct (map_page_contents g d1); reflexivity.
Qed.

Lemma map_page_contents_ext (f g : string -> string -> option string) (d : dict string) :
  (forall p c, f p c = g p c) -> map_page_contents f d = map_page_contents g d.
Proof. intros E; induction d as [|[p c] ps IH]; simpl; [reflexivity|]. rewrite E, IH; reflexivity. Qed.

Lemma map_pages_ext (f g : string -> string -> option string) (sp : sitepages) :
  (forall p c, f p c = g p c) -> map_pages f sp = map_pages g sp.
Proof.
  intros E; induction sp as [|[s d] rest IH]; simpl; [reflexivity|].
  rewrite (map_page_contents_ext f g d E), IH; reflexivity.
Qed.

Lemma map_pages_id (sp : sitepages) : map_pages (fun _ c => Some c) sp = Some sp.
Proof.
  induction sp as [|[s d] rest IH]; simpl; [reflexivity|].
  assert (Hd : map_page_contents (fun _ c => Some c) d = Some d).
  { induction d as [|[p c] ps IHd]; simpl; [reflexivity|]. rewrite IHd; reflexivity. }
  rewrite Hd; simpl. rewrite IH; reflexivity.
Qed.

Lemma apply_regxs_map (rs : list string) (b l : string) :
  forall sp, apply_regxs rs b l sp = map_pages (fold_content rs b l) sp.
Proof.
  induction rs as [|r rs IH]; intros sp; simpl.
  - symmetry; apply map_pages_id.
  - transitivity (obind (replace_regex_link sp r b l) (map_pages (fold_content rs b l))).
    + unfold obind. destruct (replace_regex_link sp r b l); [apply IH|reflexivity].
    + rewrite replace_regex_link_map, map_pages_comp. reflexivity.
Qed.

Lemma interlink_all_map (tgts : list (string * string)) :
  forall sp, interlink_all tgts sp = map_pages (run_passes tgts) sp.
Proof.
  induction tgts as [|[s q] ts IH]; intros sp; cbn [interlink_all].
  - symmetry; apply map_pages_id.
  - unfold interlink_target. transitivity (obind (apply_regxs (page_regxs s q) (page_basename q) (page_link s q) sp)
                         (map_pages (run_passes ts))).
    + unfold obind. destruct (apply_regxs _ _ _ sp); [apply IH|reflexivity].
    + rewrite apply_regxs_map, map_pages_comp. reflexivity.
Qed.

(** [make_interlinks] applies, to each page separately, the passes of all
    targets in iteration order. *)
Lemma make_interlinks_pagewise (sp : sitepages) :
  make_interlinks sp = map_pages (run_passes (page_keys sp)) sp.
Proof. apply interlink_all_map. Qed.

Lemma fold_content_blocked (rs : list string) (b l p c : string) :
  str_contains b p = true -> b <> "Quattor" -> fold_content rs b l p c = Some c.
Proof.
  intros Hc Hq. induction rs as [|r rs IH]; simpl; [reflexivity|].
  unfold rewrite_content. rewrite Hc. apply String.eqb_neq in Hq. rewrite Hq. exact IH.
Qed.

Lemma run_passes_filter (tgts : list (string * string)) (p : string) :
  forall c, run_passes tgts p c = run_passes (filter (may_link p) tgts) p c.
Proof.
  induction tgts as [|[s q] ts IH]; intros c; cbn [run_passes filter]; [reflexivity|].
  destruct (may_link p (s, q)) eqn:M; cbn [run_passes].
  - unfold obind.
    destruct (fold_content (page_regxs s q) (page_basename q) (page_link s q) p c); [apply IH|reflexivity].
  - unfold may_link in M; cbn [snd] in M. apply orb_false_iff in M as [M1 M2].
    apply negb_false_iff in M1. apply String.eqb_neq in M2.
    rewrite fold_content_blocked by assumption. apply IH.
Qed.

(** C4.  In every page P the passes of each target page T whose basename B
    is a substring of P's own name are dropped, unless B is "Quattor": the
    result of make_interlinks is, page by page, what the passes of the
    remaining targets alone make of the page's content.  So P never gets a
    link to such a T (in particular never to itself). *)
Theorem interlinks_skip_own_name :
  forall sp : sitepages,
  make_interlinks sp
  = map_pages (fun page content => run_passes (filter (may_link page) (page_keys sp)) page content) sp.
Proof.
  intros sp. rewrite make_interlinks_pagewise. apply map_pages_ext. intros p c. apply run_passes_filter.
Qed.

(* ------------------------------------------------------------------ *)
(** ** The fmonagent example *)

Lemma prefix_refl (s : string) : prefix s s = true.
Proof.
  induction s as [|a s IH]; simpl; [reflexivity|].
  destruct (ascii_dec a a) as [_|n]; [exact IH|congruence].
Qed.

Lemma prefix_substring0 (n : nat) (p : string) : prefix (substring 0 n p) p = true.
Proof.
  revert p; induction n as [|n IH]; intros p; [destruct p; reflexivity|].
  destruct p as [|a p]; simpl; [reflexivity|].
  destruct (ascii_dec a a) as [_|n']; [apply IH|congruence].
Qed.

Lemma contains_of_prefix (t s : string) : prefix t s = true -> str_contains t s = true.
Proof. intros H; destruct s; cbn [str_contains]; rewrite H; reflexivity. Qed.

Lemma basename_in_page (p : string) : str_contains (page_basename p) p = true.
Proof.
  apply contains_of_prefix. unfold page_basename, splitext.
  destruct (rfind "." p) as [d|]; [|apply prefix_refl].
  destruct (_ && _); [apply prefix_substring0|apply prefix_refl].
Qed.

Lemma rewrite_content_empty (r b l p : string) : rewrite_content r b l p "" = Some "".
Proof.
  unfold rewrite_content. destruct b as [|a b].
  - replace (str_contains "" p) with true by (destruct p; reflexivity). reflexivity.
  - simpl. rewrite andb_false_r. reflexivity.
Qed.

Lemma run_passes_empty (tgts : list (string * string)) (p : string) : run_passes tgts p "" = Some "".
Proof.
  induction tgts as [|[s q] ts IH]; cbn [run_passes]; [reflexivity|].
  replace (fold_content (page_regxs s q) (page_basename q) (page_link s q) p "") with (Some "").
  - exact IH.
  - induction (page_regxs s q) as [|r rs IHr]; cbn [fold_content]; [reflexivity|].
    rewrite rewrite_content_empty. exact IHr.
Qed.

Lemma fold_content_name (rs : list string) (b l p q : string) :
  str_contains b p = str_contains b q -> forall c, fold_content rs b l p c = fold_content rs b l q c.
Proof.
  intros E; induction rs as [|r rs IH]; intros c; cbn [fold_content]; [reflexivity|].
  unfold rewrite_content. rewrite E. destruct (_ && _); [destruct (re_sub_link r b l c)|]; simpl; auto.
Qed.

Lemma fold_content_self (rs : list string) (l p c : string) :
  str_contains "Quattor" c = false -> fold_content rs (page_basename p) l p c = Some c.
Proof.
  intros Hq; induction rs as [|r rs IH]; cbn [fold_content]; [reflexivity|].
  unfold rewrite_content. rewrite basename_in_page. simpl.
  destruct (String.eqb (page_basename p) "Quattor") eqn:E; [|exact IH].
  apply String.eqb_eq in E.
  replace (str_contains (page_basename p) c) with false by (rewrite E; symmetry; exact Hq).
  exact IH.
Qed.

Definition fmonagent_link_text : string := "I refer to [fmonagent](../components-grid/fmonagent.md).".

Lemma fmonagent_passes (c0 : string) :
  In c0 ["I refer to `fmonagent`."; "I refer to `ncm-fmonagent`."] ->
  fold_content (page_regxs "components-grid" "fmonagent.md") (page_basename "fmonagent.md")
    (page_link "components-grid" "fmonagent.md") "icinga.md" c0 = Some fmonagent_link_text.
Proof. intros [<-|[<-|[]]]; vm_compute; reflexivity. Qed.

Lemma fmonagent_passes_on (pname c0 : string) :
  str_contains "fmonagent" pname = false ->
  In c0 ["I refer to `fmonagent`."; "I refer to `ncm-fmonagent`."] ->
  fold_content (page_regxs "components-grid" "fmonagent.md") (page_basename "fmonagent.md")
    (page_link "components-grid" "fmonagent.md") pname c0 = Some fmonagent_link_text.
Proof.
  intros H Hc. rewrite (fold_content_name _ _ _ pname "icinga.md").
  - apply fmonagent_passes, Hc.
  - replace (page_basename "fmonagent.md") with "fmonagent" by (vm_compute; reflexivity).
    rewrite H. reflexivity.
Qed.

(** C3 (amended).  With the page fmonagent.md (empty) in components-grid
    and one page in components whose name does not contain "fmonagent",
    make_interlinks turns that page's content "I refer to `fmonagent`." or
    "I refer to `ncm-fmonagent`." into
    "I refer to [fmonagent](../components-grid/fmonagent.md).", whichever
    of the two sections is iterated first. *)
Theorem fmonagent_interlink (pname c0 : string) :
  str_contains "fmonagent" pname = false ->
  In c0 ["I refer to `fmonagent`."; "I refer to `ncm-fmonagent`."] ->
  make_interlinks [("components-grid", [("fmonagent.md", "")]); ("components", [(pname, c0)])]
  = Some [("components-grid", [("fmonagent.md", "")]);
          ("components", [(pname, "I refer to [fmonagent](../components-grid/fmonagent.md).")])]
  /\ make_interlinks [("components", [(pname, c0)]); ("components-grid", [("fmonagent.md", "")])]
  = Some [("components", [(pname, "I refer to [fmonagent](../components-grid/fmonagent.md).")]);
          ("components-grid", [("fmonagent.md", "")])].
Proof.
  intros H Hc.
  assert (Hq : str_contains "Quattor" c0 = false) by (destruct Hc as [<-|[<-|[]]]; reflexivity).
  assert (Hl : str_contains "Quattor" fmonagent_link_text = false) by (vm_compute; reflexivity).
  split; rewrite make_interlinks_pagewise; unfold page_keys;
    cbn [flat_map map fst snd app map_pages map_page_contents]; rewrite !run_passes_empty;
    cbn [obind run_passes].
  - rewrite (fmonagent_passes_on pname c0 H Hc). cbn [obind].
    rewrite (fold_content_self _ _ pname _ Hl). reflexivity.
  - rewrite (fold_content_self _ _ pname _ Hq). cbn [obind].
    rewrite (fmonagent_passes_on pname c0 H Hc). reflexivity.
Qed.

Lemma fmonagent_interlink_witness :
  str_contains "fmonagent" "icinga.md" = false
  /\ In "I refer to `ncm-fmonagent`." ["I refer to `fmonagent`."; "I refer to `ncm-fmonagent`."]
  /\ make_interlinks [("components-grid", [("fmonagent.md", "")]);
                      ("components", [("icinga.md", "I refer to `ncm-fmonagent`.")])]
     = Some [("components-grid", [("fmonagent.md", "")]);
             ("components", [("icinga.md", "I refer to [fmonagent](../components-grid/fmonagent.md).")])].
Proof.
  assert (H : str_contains "fmonagent" "icinga.md" = false) by (vm_compute; reflexivity).
  assert (Hc : In "I refer to `ncm-fmonagent`." ["I refer to `fmonagent`."; "I refer to `ncm-fmonagent`."])
    by (right; left; reflexivity).
  split; [exact H|split; [exact Hc|]].
  exact (proj1 (fmonagent_interlink "icinga.md" "I refer to `ncm-fmonagent`." H Hc)).
Defined.

(** C3 does not hold for every page of components: a page that is itself
    named fmonagent.md is never rewritten with a link for "fmonagent". *)
Lemma fmonagent_interlink_own_name :
  make_interlinks [("components-grid", [("fmonagent.md", "")]);
                   ("components", [("fmonagent.md", "I refer to `fmonagent`.")])]
  = Some [("components-grid", [("fmonagent.md", "")]);
          ("components", [("fmonagent.md", "I refer to `fmonagent`.")])].
Proof. vm_compute. reflexivity. Qed.

(* ------------------------------------------------------------------ *)
(** ** Basenames are not escaped *)

(** C5.  The basename is pasted into the pattern without [re.escape], so a
    dot in a page's basename matches any character: with a page a.b.md, the
    text `axb` of another page, in which `a.b` does not occur, is rewritten
    into a link to a.b.md. *)
Lemma unescaped_basename_matches :
  make_interlinks [("s", [("a.b.md", "")]); ("t", [("x.md", "see `a.b`, `axb`.")])]
  = Some [("s", [("a.b.md", "")]); ("t", [("x.md", "see [a.b](../s/a.b.md), [a.b](../s/a.b.md).")])].
Proof. vm_compute. reflexivity. Qed.

(* ------------------------------------------------------------------ *)
(** ** The table of contents *)

Section KeyOrder.

Let slt := String_as_OT.lt.

Lemma slt_irrefl (u : string) : ~ slt u u.
Proof. exact (StrictOrder_Irreflexive (R := String_as_OT.lt) u). Qed.

Lemma slt_trans (u v w : string) : slt u v -> slt v w -> slt u w.
Proof. apply (StrictOrder_Transitive (R := String_as_OT.lt)). Qed.

Lemma key_lt_true (a b : string) : key_lt a b = true <-> slt (lower a) (lower b).
Proof.
  unfold key_lt, slt, String_as_OT.lt. destruct (String_as_OT.compare (lower a) (lower b));
    split; congruence.
Qed.

Lemma key_lt_false (a b : string) : key_lt a b = false <-> lower a = lower b \/ slt (lower b) (lower a).
Proof.
  destruct (key_lt a b) eqn:E; split; intros H; try discriminate.
  - apply key_lt_true in E. destruct H as [H|H].
    + rewrite H in E. exfalso; exact (slt_irrefl _ E).
    + exfalso; exact (slt_irrefl _ (slt_trans _ _ _ E H)).
  - destruct (String_as_OT.compare_spec (lower a) (lower b)) as [C|C|C]; [left; exact C| |right; exact C].
    exfalso. apply key_lt_true in C. congruence.
  - reflexivity.
Qed.

End KeyOrder.

Lemma key_lt_asym (a b : string) : key_lt a b = true -> key_lt b a = false.
Proof.
  intros H. apply key_lt_false. right. apply key_lt_true in H. exact H.
Qed.

Lemma key_le_antisym (a b : string) : key_lt a b = false -> key_lt b a = false -> lower a = lower b.
Proof.
  intros H1 H2. apply key_lt_false in H1 as [H1|H1]; [exact H1|].
  apply key_lt_false in H2 as [H2|H2]; [symmetry; exact H2|].
  exfalso; exact (slt_irrefl _ (slt_trans _ _ _ H1 H2)).
Qed.

Lemma key_le_trans : Transitive key_le.
Proof.
  unfold key_le; intros a b c H1 H2. apply key_lt_false in H1, H2. apply key_lt_false.
  destruct H1 as [H1|H1], H2 as [H2|H2].
  - left; congruence.
  - right; rewrite <- H1; exact H2.
  - right; rewrite H2; exact H1.
  - right; exact (slt_trans _ _ _ H1 H2).
Qed.

Lemma insert_sorted_perm (x : string) (l : list string) : Permutation (insert_sorted x l) (x :: l).
Proof.
  induction l as [|y l IH]; simpl; [reflexivity|].
  destruct (key_lt x y); [reflexivity|].
  rewrite IH. apply perm_swap.
Qed.

Lemma sort_lower_perm_go (l : list string) :
  forall acc, Permutation (fold_left (fun acc x => insert_sorted x acc) l acc) (l ++ acc).
Proof.
  induction l as [|x l IH]; intros acc; simpl; [reflexivity|].
  rewrite IH, insert_sorted_perm. symmetry; apply Permutation_middle.
Qed.

Lemma sort_lower_perm (l : list string) : Permutation (sort_lower l) l.
Proof. unfold sort_lower. rewrite sort_lower_perm_go, app_nil_r. reflexivity. Qed.

Lemma insert_sorted_sorted (x : string) (l : list string) :
  Sorted key_le l -> Sorted key_le (insert_sorted x l).
Proof.
  induction l as [|y l IH]; intros H; simpl; [repeat constructor|].
  destruct (key_lt x y) eqn:E.
  - constructor; [exact H|]. constructor. unfold key_le. apply key_lt_asym, E.
  - apply Sorted_inv in H as [Hl Hh]. constructor; [apply IH, Hl|].
    destruct l as [|z l]; simpl; [constructor; exact E|].
    destruct (key_lt x z); constructor; [exact E|]. inversion Hh; assumption.
Qed.

Lemma sort_lower_sorted (l : list string) : Sorted key_le (sort_lower l).
Proof.
  unfold sort_lower. assert (H : Sorted key_le (@nil string)) by constructor. revert H.
  generalize (@nil string). induction l as [|x l IH]; intros acc H; simpl; [exact H|].
  apply IH, insert_sorted_sorted, H.
Qed.

Lemma set_add_in (l : list string) : forall acc x, In x (fold_left set_add l acc) <-> In x acc \/ In x l.
Proof.
  induction l as [|y l IH]; intros acc x; simpl; [tauto|].
  rewrite IH. unfold set_add. destruct (existsb (String.eqb y) acc) eqn:E.
  - apply existsb_exists in E as [z [Hz Ez]]. apply String.eqb_eq in Ez; subst z. split; [tauto|].
    intros [H|[<-|H]]; tauto.
  - rewrite in_app_iff. simpl. tauto.
Qed.

Lemma set_add_nodup (l : list string) : forall acc, NoDup acc -> NoDup (fold_left set_add l acc).
Proof.
  induction l as [|y l IH]; intros acc H; simpl; [exact H|].
  apply IH. unfold set_add. destruct (existsb (String.eqb y) acc) eqn:E; [exact H|].
  apply NoDup_app; [exact H|repeat constructor; simpl; tauto|].
  intros z Hz [->|[]]. assert (existsb (String.eqb z) acc = true) by
    (apply existsb_exists; exists z; split; [exact Hz|apply String.eqb_refl]). congruence.
Qed.

(** The entry of the table of contents for a list of page names. *)
Lemma toc_entry_spec (names : list string) :
  let e := sort_lower (fold_left set_add names []) in
  Sorted key_le e /\ NoDup e /\ forall x, In x e <-> In x names.
Proof.
  simpl. split; [apply sort_lower_sorted|split].
  - eapply Permutation_NoDup; [symmetry; apply sort_lower_perm|]. apply set_add_nodup. constructor.
  - intros x. split; intros H.
    + apply (Permutation_in _ (sort_lower_perm _)) in H. apply set_add_in in H as [[]|H]; exact H.
    + apply (Permutation_in _ (Permutation_sym (sort_lower_perm _))). apply set_add_in. right; exact H.
Qed.

(** Two lists sorted by the lowercase key with the same elements are equal
    when no two of their elements differ only in case. *)
Lemma sorted_unique (l1 : list string) :
  forall l2, StronglySorted key_le l1 -> StronglySorted key_le l2 -> NoDup l1 -> NoDup l2 ->
  (forall x, In x l1 <-> In x l2) ->
  (forall x y, In x l1 -> In y l1 -> lower x = lower y -> x = y) -> l1 = l2.
Proof.
  induction l1 as [|a l1 IH]; intros l2 S1 S2 N1 N2 E T.
  - destruct l2 as [|b l2]; [reflexivity|]. exfalso. apply (proj2 (E b)). left; reflexivity.
  - destruct l2 as [|b l2]; [exfalso; apply (proj1 (E a)); left; reflexivity|].
    apply StronglySorted_inv in S1 as [S1 F1]. apply StronglySorted_inv in S2 as [S2 F2].
    apply NoDup_cons_iff in N1 as [Na N1]. apply NoDup_cons_iff in N2 as [Nb N2].
    assert (Hab : a = b).
    { destruct (String.eqb_spec a b) as [Hab|Hab]; [exact Hab|].
      assert (Ha2 : In a l2) by (destruct (proj1 (E a) (or_introl eq_refl)); [congruence|assumption]).
      assert (Hb1 : In b l1) by (destruct (proj2 (E b) (or_introl eq_refl)); [congruence|assumption]).
      apply T; [left; reflexivity|right; exact Hb1|].
      apply key_le_antisym.
      - exact (proj1 (Forall_forall _ _) F2 a Ha2).
      - exact (proj1 (Forall_forall _ _) F1 b Hb1). }
    subst b. f_equal. apply IH; try assumption.
    + intros x. split; intros Hx.
      * destruct (proj1 (E x) (or_intror Hx)) as [<-|H]; [contradiction|exact H].
      * destruct (proj2 (E x) (or_intror Hx)) as [<-|H]; [contradiction|exact H].
    + intros x y Hx Hy. apply T; right; assumption.
Qed.

Lemma dict_get_notin {V} (d : dict V) (k : string) : ~ In k (map fst d) -> dict_get d k = None.
Proof.
  induction d as [|[k' v] d IH]; intros H; simpl; [reflexivity|].
  destruct (String.eqb_spec k k') as [->|_]; [exfalso; apply H; left; reflexivity|].
  apply IH. intros Hk; apply H; right; exact Hk.
Qed.

Lemma write_pages_toc (subdir : string) (full : path) (pages : dict string) :
  forall fs t v fs' t', dict_get t subdir = Some v ->
  write_pages subdir full pages (fs, t) = Some (fs', t') ->
  dict_get t' subdir = Some (fold_left set_add (map fst pages) v)
  /\ forall k, k <> subdir -> dict_get t' k = dict_get t k.
Proof.
  induction pages as [|[p c] ps IH]; intros fs t v fs' t' Hv H; cbn [write_pages fst snd] in H.
  - injection H as <- <-. split; [exact Hv|reflexivity].
  - destruct (write_file fs (full ++ [p]) c) as [fs1|]; [|discriminate].
    assert (Hv1 : dict_get (dict_set t subdir (set_add (toc_get t subdir) p)) subdir
                  = Some (set_add v p)).
    { rewrite dict_get_set_eq. unfold toc_get. rewrite Hv. reflexivity. }
    destruct (IH _ _ _ _ _ Hv1 H) as [H1 H2]. split; [exact H1|].
    intros k Hk. rewrite H2 by exact Hk. apply dict_get_set_neq. exact Hk.
Qed.

(** The table of contents [write_sections] builds: each section of the
    input maps to its sorted set of page names. *)
Lemma write_sections_toc (location : path) (docsdir : string) (sp : sitepages) :
  NoDup (map fst sp) ->
  forall fs t st', write_sections location docsdir sp (fs, t) = Some st' ->
  forall k, dict_get (snd st') k
            = match dict_get sp k with
              | Some pages => Some (sort_lower (fold_left set_add (map fst pages) []))
              | None => dict_get t k
              end.
Proof.
  induction sp as [|[s pages] rest IH]; intros Hnd fs t st' H k; cbn [write_sections fst snd] in H.
  - injection H as <-. reflexivity.
  - simpl in Hnd. apply NoDup_cons_iff in Hnd as [Hs Hnd].
    destruct (if path_exists fs (location ++ [docsdir; s]) then Some fs else makedirs fs (location ++ [docsdir; s]))
      as [fs1|]; [|discriminate].
    destruct (write_pages s (location ++ [docsdir; s]) pages (fs1, dict_set t s [])) as [[fs2 t2]|] eqn:W;
      [|discriminate].
    destruct (write_pages_toc _ _ _ _ _ _ _ _ (dict_get_set_eq t s []) W) as [W1 W2].
    rewrite (IH Hnd _ _ _ H k). cbn [dict_get].
    destruct (String.eqb_spec k s) as [->|Hk].
    + rewrite (dict_get_notin rest s Hs), dict_get_set_eq. unfold toc_get. rewrite W1. reflexivity.
    + destruct (dict_get rest k); [reflexivity|].
      rewrite dict_get_set_neq by exact Hk. rewrite W2 by exact Hk. apply dict_get_set_neq. exact Hk.
Qed.

Lemma write_site_toc (render : toc -> option string) (fs : fsys) (location : path) (docsdir : string)
    (sp : sitepages) (fs' : fsys) (t : toc) :
  NoDup (map fst sp) -> write_site render fs location docsdir sp = Some (fs', t) ->
  forall k, dict_get t k = option_map (fun pages => sort_lower (fold_left set_add (map fst pages) []))
                                      (dict_get sp k).
Proof.
  intros Hnd H k. unfold write_site in H.
  destruct (write_sections location docsdir sp (fs, [])) as [[fs1 t1]|] eqn:W; [|discriminate].
  destruct (write_toc render t1 location fs1); [|discriminate]. injection H as <- <-.
  pose proof (write_sections_toc _ _ _ Hnd _ _ _ W k) as E. cbn [snd] in E. rewrite E.
  destruct (dict_get sp k); reflexivity.
Qed.

(** C7 (amended).  When write_site returns, its table of contents maps each
    section of the input, and nothing else, to a duplicate-free list of
    exactly that section's page names, sorted by lowercase key.  Two inputs
    with the same sections and the same page names per section give equal
    tables of contents, whatever their iteration order, when no two page
    names of a section differ only in case. *)
Theorem toc_sorted_case_insensitive (render : toc -> option string) (fs : fsys) (location : path)
    (docsdir : string) (sp : sitepages) (fs' : fsys) (t : toc) :
  NoDup (map fst sp) ->
  write_site render fs location docsdir sp = Some (fs', t) ->
  (forall s, match dict_get sp s with
             | Some pages => exists l, dict_get t s = Some l /\ Sorted key_le l /\ NoDup l
                                       /\ forall x, In x l <-> In x (map fst pages)
             | None => dict_get t s = None
             end)
  /\ (forall render2 fs2 location2 docsdir2 sp2 fs2' t2,
        NoDup (map fst sp2) ->
        write_site render2 fs2 location2 docsdir2 sp2 = Some (fs2', t2) ->
        (forall s, match dict_get sp s, dict_get sp2 s with
                   | Some p1, Some p2 => forall x, In x (map fst p1) <-> In x (map fst p2)
                   | None, None => True
                   | _, _ => False
                   end) ->
        (forall s pages x y, dict_get sp s = Some pages -> In x (map fst pages) -> In y (map fst pages) ->
                             lower x = lower y -> x = y) ->
        forall s, dict_get t s = dict_get t2 s).
Proof.
  intros Hnd H. split.
  - intros s. rewrite (write_site_toc _ _ _ _ _ _ _ Hnd H s).
    destruct (dict_get sp s) as [pages|]; [|reflexivity].
    eexists; split; [reflexivity|]. apply toc_entry_spec.
  - intros render2 fs2 location2 docsdir2 sp2 fs2' t2 Hnd2 H2 Hsame Hcase s.
    rewrite (write_site_toc _ _ _ _ _ _ _ Hnd H s), (write_site_toc _ _ _ _ _ _ _ Hnd2 H2 s).
    specialize (Hsame s). specialize (Hcase s).
    destruct (dict_get sp s) as [p1|], (dict_get sp2 s) as [p2|]; try contradiction; [|reflexivity].
    simpl. f_equal.
    destruct (toc_entry_spec (map fst p1)) as [S1 [N1 E1]], (toc_entry_spec (map fst p2)) as [S2 [N2 E2]].
    apply sorted_unique; try assumption.
    + apply Sorted_StronglySorted; [exact key_le_trans|exact S1].
    + apply Sorted_StronglySorted; [exact key_le_trans|exact S2].
    + intros x. rewrite E1, E2. apply Hsame.
    + intros x y Hx Hy. apply (Hcase p1 x y eq_refl); [apply E1, Hx|apply E1, Hy].
Qed.

Lemma toc_sorted_case_insensitive_witness :
  (exists l, dict_get [("CCM", ["fetch::download.md"]); ("components", ["fmonagent.md"; "profile::functions.md"])]
                      "components" = Some l
             /\ Sorted key_le l /\ NoDup l /\ forall x, In x l <-> In x ["fmonagent.md"; "profile::functions.md"])
  /\ dict_get [("CCM", ["fetch::download.md"]); ("components", ["fmonagent.md"; "profile::functions.md"])] "components"
     = dict_get [("components", ["fmonagent.md"; "profile::functions.md"]); ("CCM", ["fetch::download.md"])] "components".
Proof.
  assert (H1 : write_site (fun _ => Some "toc") {| fs_dirs := [["o"]]; fs_files := [] |} ["o"] "docs"
                 [("CCM", [("fetch::download.md", "# NAME")]);
                  ("components", [("fmonagent.md", "Hello"); ("profile::functions.md", "Functions")])]
               = Some ({| fs_dirs := [["o"; "docs"; "components"]; ["o"; "docs"; "CCM"]; ["o"; "docs"]; ["o"]];
                          fs_files := [(["o"; "mkdocs.yml"], "toc");
                                       (["o"; "docs"; "components"; "profile::functions.md"], "Functions");
                                       (["o"; "docs"; "components"; "fmonagent.md"], "Hello");
                                       (["o"; "docs"; "CCM"; "fetch::download.md"], "# NAME")] |},
                       [("CCM", ["fetch::download.md"]);
                        ("components", ["fmonagent.md"; "profile::functions.md"])]))
    by (vm_compute; reflexivity).
  assert (H2 : write_site (fun _ => Some "toc") {| fs_dirs := [["p"]]; fs_files := [] |} ["p"] "docs"
                 [("components", [("profile::functions.md", "Functions"); ("fmonagent.md", "Hello")]);
                  ("CCM", [("fetch::download.md", "# NAME")])]
               = Some ({| fs_dirs := [["p"; "docs"; "CCM"]; ["p"; "docs"; "components"]; ["p"; "docs"]; ["p"]];
                          fs_files := [(["p"; "mkdocs.yml"], "toc");
                                       (["p"; "docs"; "CCM"; "fetch::download.md"], "# NAME");
                                       (["p"; "docs"; "components"; "fmonagent.md"], "Hello");
                                       (["p"; "docs"; "components"; "profile::functions.md"], "Functions")] |},
                       [("components", ["fmonagent.md"; "profile::functions.md"]);
                        ("CCM", ["fetch::download.md"])]))
    by (vm_compute; reflexivity).
  assert (N1 : NoDup (map fst [("CCM", [("fetch::download.md", "# NAME")]);
                  ("components", [("fmonagent.md", "Hello"); ("profile::functions.md", "Functions")])]))
    by (simpl; nodup_tac).
  assert (N2 : NoDup (map fst [("components", [("profile::functions.md", "Functions"); ("fmonagent.md", "Hello")]);
                  ("CCM", [("fetch::download.md", "# NAME")])])) by (simpl; nodup_tac).
  destruct (toc_sorted_case_insensitive _ _ _ _ _ _ _ N1 H1) as [P1 P2]. split.
  - exact (P1 "components").
  - apply (P2 _ _ _ _ _ _ _ N2 H2).
    + intros s. destruct (String.eqb_spec s "CCM") as [->|n1]; [simpl; intros x; tauto|].
      destruct (String.eqb_spec s "components") as [->|n2].
      * simpl. intros x; split; intros [H|[H|[]]]; auto.
      * simpl. apply String.eqb_neq in n1, n2. rewrite n1, n2. exact I.
    + intros s pages x y Hp.
      destruct (String.eqb_spec s "CCM") as [->|n1]; [|destruct (String.eqb_spec s "components") as [->|n2]].
      * injection Hp as <-. simpl. intros [<-|[]] [<-|[]] _; reflexivity.
      * injection Hp as <-. simpl. intros Hx Hy.
        destruct Hx as [<-|[<-|[]]], Hy as [<-|[<-|[]]]; try reflexivity; vm_compute; discriminate.
      * simpl in Hp. apply String.eqb_neq in n1, n2. rewrite n1, n2 in Hp. discriminate.
Defined.

(** C7 fails without the side condition on case: set iteration order decides
    the order of names with the same lowercase key (CPython 2.7 stores both
    names below in insertion order, their hashes agreeing in the low bits),
    and the stable sort keeps it. *)
Lemma toc_case_tie_order :
  option_map snd (write_site (fun _ => Some "toc") {| fs_dirs := [["o"]]; fs_files := [] |} ["o"] "docs"
                    [("components", [("fmonagent.md", "a"); ("Fmonagent.md", "b")])])
  = Some [("components", ["fmonagent.md"; "Fmonagent.md"])]
  /\ option_map snd (write_site (fun _ => Some "toc") {| fs_dirs := [["o"]]; fs_files := [] |} ["o"] "docs"
                    [("components", [("Fmonagent.md", "b"); ("fmonagent.md", "a")])])
  = Some [("components", ["Fmonagent.md"; "fmonagent.md"])].
Proof. split; vm_compute; reflexivity. Qed.

(* ------------------------------------------------------------------ *)
(** ** make_interlinks on the heap *)

Lemma hget_hset_eq (h : heap) (l : nat) (o o' : hobj) : hget h l = Some o -> hget (hset h l o') l = Some o'.
Proof.
  unfold hget; revert l; induction h as [|x h IH]; intros [|l] H; simpl in *; try discriminate;
    [reflexivity|apply IH, H].
Qed.

Lemma hget_hset_neq (h : heap) (l x : nat) (o' : hobj) : x <> l -> hget (hset h l o') x = hget h x.
Proof.
  unfold hget; revert l x; induction h as [|y h IH]; intros [|l] [|x] H; simpl; try reflexivity;
    [congruence|apply IH; congruence].
Qed.

Lemma hset_hset (h : heap) (l : nat) (a b : hobj) : hset (hset h l a) l b = hset h l b.
Proof. revert l; induction h as [|y h IH]; intros [|l]; simpl; try reflexivity. rewrite IH; reflexivity. Qed.

Lemma hset_same (h : heap) (l : nat) (o : hobj) : hget h l = Some o -> hset h l o = h.
Proof.
  unfold hget; revert l; induction h as [|y h IH]; intros [|l] H; simpl in *; try discriminate.
  - injection H as ->; reflexivity.
  - rewrite (IH l H); reflexivity.
Qed.

Lemma dict_get_app_notin {V} (a b : dict V) (p : string) (c : V) :
  ~ In p (keys a) -> dict_get (a ++ (p, c) :: b) p = Some c.
Proof.
  induction a as [|[k v] a IH]; intros H; simpl; [rewrite String.eqb_refl; reflexivity|].
  destruct (String.eqb_spec p k) as [->|_]; [exfalso; apply H; left; reflexivity|].
  apply IH. intros Hk; apply H; right; exact Hk.
Qed.

Lemma dict_set_app_notin {V} (a b : dict V) (p : string) (c c' : V) :
  ~ In p (keys a) -> dict_set (a ++ (p, c) :: b) p c' = a ++ (p, c') :: b.
Proof.
  induction a as [|[k v] a IH]; intros H; simpl; [rewrite String.eqb_refl; reflexivity|].
  destruct (String.eqb_spec p k) as [->|_]; [exfalso; apply H; left; reflexivity|].
  rewrite IH; [reflexivity|]. intros Hk; apply H; right; exact Hk.
Qed.

Lemma keys_mid {V} (a b : dict V) (p : string) (c c' : V) :
  keys (a ++ (p, c) :: b) = keys ((a ++ [(p, c')]) ++ b).
Proof. unfold keys. rewrite !map_app. simpl. rewrite <- app_assoc. reflexivity. Qed.

Lemma rewrite_pages_keys (r b l : string) (d : dict string) :
  forall d', rewrite_pages r b l d = Some d' -> keys d' = keys d.
Proof.
  induction d as [|[p c] ps IH]; intros d' H; simpl in H; [injection H as <-; reflexivity|].
  destruct (rewrite_content r b l p c); [|discriminate].
  destruct (rewrite_pages r b l ps) as [ps'|] eqn:E; [|discriminate]. injection H as <-.
  unfold keys in *; simpl. f_equal. apply IH; reflexivity.
Qed.

(** The page loop of [replace_regex_link] on the inner dict at [li]: the
    dict is rewritten in place as [rewrite_pages] rewrites its value. *)
Lemma rr_pages_h_spec (r b lk : string) (li : nat) (rest : dict string) :
  forall done h, hget h li = Some (HInner (done ++ rest)) -> NoDup (keys (done ++ rest)) ->
  rr_pages_h r b lk li (keys rest) h
  = option_map (fun rest' => hset h li (HInner (done ++ rest'))) (rewrite_pages r b lk rest).
Proof.
  induction rest as [|[p c] rest IH]; intros done h Hh Hnd.
  - rewrite app_nil_r in Hh. simpl. rewrite app_nil_r, (hset_same _ _ _ Hh). reflexivity.
  - assert (Hp : ~ In p (keys done)).
    { unfold keys in Hnd. rewrite map_app in Hnd. simpl in Hnd. apply NoDup_remove_2 in Hnd.
      intros Hin; apply Hnd, in_or_app; left; exact Hin. }
    unfold keys at 1; cbn [map fst rr_pages_h]. change (map fst rest) with (keys rest).
    rewrite Hh, (dict_get_app_notin _ _ _ _ Hp).
    cbn [rewrite_pages]. unfold rewrite_content.
    destruct (_ && _).
    + destruct (re_sub_link r b lk c) as [c'|]; [|reflexivity].
      rewrite (dict_set_app_notin _ _ _ _ _ Hp).
      replace (done ++ (p, c') :: rest) with ((done ++ [(p, c')]) ++ rest) by (rewrite <- app_assoc; reflexivity).
      rewrite (IH (done ++ [(p, c')])).
      * destruct (rewrite_pages r b lk rest); simpl; [|reflexivity].
        rewrite hset_hset, <- app_assoc. reflexivity.
      * eapply hget_hset_eq; exact Hh.
      * rewrite <- (keys_mid _ _ _ c). exact Hnd.
    + replace (done ++ (p, c) :: rest) with ((done ++ [(p, c)]) ++ rest) in Hh, Hnd
        by (rewrite <- app_assoc; reflexivity).
      rewrite (IH _ _ Hh Hnd).
      destruct (rewrite_pages r b lk rest); simpl; [|reflexivity].
      rewrite <- app_assoc. reflexivity.
Qed.

Lemma read_sections_frame (h h' : heap) (rest : dict nat) :
  (forall x, In x (map snd rest) -> hget h' x = hget h x) -> read_sections h' rest = read_sections h rest.
Proof.
  induction rest as [|[s li] rest IH]; intros H; simpl; [reflexivity|].
  rewrite (H li (or_introl eq_refl)), IH; [reflexivity|]. intros x Hx; apply H; right; exact Hx.
Qed.

Lemma same_keys_refl (h : heap) : same_keys h h.
Proof. intros x d H; exists d; split; [exact H|reflexivity]. Qed.

Lemma same_keys_trans (h1 h2 h3 : heap) : same_keys h1 h2 -> same_keys h2 h3 -> same_keys h1 h3.
Proof.
  intros A B x d H. destruct (A x d H) as [d2 [H2 K2]]. destruct (B x d2 H2) as [d3 [H3 K3]].
  exists d3; split; [exact H3|congruence].
Qed.

Lemma inner_ok_frame (h h' : heap) (rest : dict nat) :
  (forall x, In x (map snd rest) -> hget h' x = hget h x) ->
  Forall (fun e => exists d, hget h (snd e) = Some (HInner d) /\ NoDup (keys d)) rest ->
  Forall (fun e => exists d, hget h' (snd e) = Some (HInner d) /\ NoDup (keys d)) rest.
Proof.
  intros Hx Hf. apply Forall_forall. intros e He. rewrite (Hx (snd e) (in_map _ _ _ He)).
  exact (proj1 (Forall_forall _ _) Hf e He).
Qed.

(** The section loop of [replace_regex_link]: each inner dict is rewritten
    in place as the pure [replace_regex_link] rewrites the catalog. *)
Lemma rr_sections_h_spec (r b lk : string) (rest : dict nat) :
  forall h sr, NoDup (map snd rest) ->
  Forall (fun e => exists d, hget h (snd e) = Some (HInner d) /\ NoDup (keys d)) rest ->
  read_sections h rest = Some sr ->
  match rr_sections_h r b lk rest h, replace_regex_link sr r b lk with
  | Some h', Some sr' => read_sections h' rest = Some sr' /\ same_keys h h'
                         /\ forall x, ~ In x (map snd rest) -> hget h' x = hget h x
  | None, None => True
  | _, _ => False
  end.
Proof.
  induction rest as [|[s li] rest IH]; intros h sr Hnd Hf Hr.
  - simpl in Hr. injection Hr as <-. simpl. split; [reflexivity|split; [apply same_keys_refl|reflexivity]].
  - simpl in Hnd. apply NoDup_cons_iff in Hnd as [Hli Hnd].
    apply Forall_cons_iff in Hf as [[d [Hd Hkd]] Hf]. simpl in Hd.
    simpl in Hr. rewrite Hd in Hr.
    destruct (read_sections h rest) as [sr0|] eqn:Er; [|discriminate]. injection Hr as <-.
    cbn [rr_sections_h replace_regex_link]. rewrite Hd.
    rewrite (rr_pages_h_spec r b lk li d [] h Hd Hkd).
    destruct (rewrite_pages r b lk d) as [d'|] eqn:Ed; simpl; [|trivial].
    assert (Hfr : forall x, In x (map snd rest) -> hget (hset h li (HInner d')) x = hget h x).
    { intros x Hx. apply hget_hset_neq. intros ->. contradiction. }
    specialize (IH (hset h li (HInner d')) sr0 Hnd (inner_ok_frame _ _ _ Hfr Hf)).
    rewrite (read_sections_frame _ _ _ Hfr), Er in IH. specialize (IH eq_refl).
    destruct (rr_sections_h r b lk rest (hset h li (HInner d'))) as [h'|];
      destruct (replace_regex_link sr0 r b lk) as [sr'|]; try contradiction; trivial.
    destruct IH as [R [K F]]. split; [|split].
    + simpl. rewrite (F li Hli), (hget_hset_eq _ _ _ _ Hd), R. reflexivity.
    + apply (same_keys_trans _ (hset h li (HInner d'))); [|exact K].
      intros x d0 H0. destruct (Nat.eq_dec x li) as [->|Hx].
      * rewrite Hd in H0. injection H0 as <-. exists d'. split; [eapply hget_hset_eq; exact Hd|].
        apply (rewrite_pages_keys _ _ _ _ _ Ed).
      * exists d0. split; [rewrite hget_hset_neq by exact Hx; exact H0|reflexivity].
    + intros x Hx. rewrite F by (intros Hin; apply Hx; right; exact Hin).
      apply hget_hset_neq. intros ->. apply Hx; left; reflexivity.
Qed.

Lemma heap_wf_keep (h h' : heap) (l : nat) (outer : dict nat) :
  heap_wf h l outer -> same_keys h h' -> hget h' l = hget h l -> heap_wf h' l outer.
Proof.
  intros [Hl [Hnd [Hnl Hf]]] K E. split; [rewrite E; exact Hl|split; [exact Hnd|split; [exact Hnl|]]].
  apply Forall_forall. intros e He. destruct (proj1 (Forall_forall _ _) Hf e He) as [d [Hd Hk]].
  destruct (K _ _ Hd) as [d' [Hd' Hk']]. exists d'. split; [exact Hd'|]. rewrite Hk'. exact Hk.
Qed.

Lemma replace_regex_link_h_spec (r b lk : string) (h : heap) (l : nat) (outer : dict nat) (sp : sitepages) :
  heap_wf h l outer -> read_sitepages h l = Some sp ->
  match replace_regex_link_h h l r b lk, replace_regex_link sp r b lk with
  | Some (h', l'), Some sp' => l' = l /\ heap_wf h' l outer /\ read_sitepages h' l = Some sp' /\ same_keys h h'
  | None, None => True
  | _, _ => False
  end.
Proof.
  intros W Hsp. pose proof W as [Hl [Hnd [Hnl Hf]]].
  unfold replace_regex_link_h. unfold read_sitepages in Hsp. rewrite Hl in *.
  pose proof (rr_sections_h_spec r b lk outer h sp Hnd Hf Hsp) as S.
  destruct (rr_sections_h r b lk outer h) as [h'|]; destruct (replace_regex_link sp r b lk) as [sp'|];
    try contradiction; trivial.
  destruct S as [R [K F]]. assert (El : hget h' l = hget h l) by (apply F; exact Hnl).
  split; [reflexivity|split; [exact (heap_wf_keep _ _ _ _ W K El)|split; [|exact K]]].
  unfold read_sitepages. rewrite El, Hl. exact R.
Qed.

Lemma apply_regxs_h_spec (b lk : string) (l : nat) (outer : dict nat) (rs : list string) :
  forall h sp, heap_wf h l outer -> read_sitepages h l = Some sp ->
  match apply_regxs_h rs b lk (h, l), apply_regxs rs b lk sp with
  | Some (h', l'), Some sp' => l' = l /\ heap_wf h' l outer /\ read_sitepages h' l = Some sp' /\ same_keys h h'
  | None, None => True
  | _, _ => False
  end.
Proof.
  induction rs as [|r rs IH]; intros h sp W R.
  - simpl. split; [reflexivity|split; [exact W|split; [exact R|apply same_keys_refl]]].
  - cbn [apply_regxs_h apply_regxs fst snd].
    pose proof (replace_regex_link_h_spec r b lk h l outer sp W R) as S.
    destruct (replace_regex_link_h h l r b lk) as [[h1 l1]|]; destruct (replace_regex_link sp r b lk) as [sp1|];
      try contradiction; trivial.
    destruct S as [-> [W1 [R1 K1]]]. specialize (IH h1 sp1 W1 R1).
    destruct (apply_regxs_h rs b lk (h1, l)) as [[h2 l2]|]; destruct (apply_regxs rs b lk sp1) as [sp2|];
      try contradiction; trivial.
    destruct IH as [-> [W2 [R2 K2]]]. split; [reflexivity|split; [exact W2|split; [exact R2|]]].
    exact (same_keys_trans _ _ _ K1 K2).
Qed.

Lemma mi_pages_h_spec (subdir : string) (l : nat) (outer : dict nat) (ks : list string) :
  forall h sp, heap_wf h l outer -> read_sitepages h l = Some sp ->
  match mi_pages_h subdir ks (h, l), interlink_all (map (fun p => (subdir, p)) ks) sp with
  | Some (h', l'), Some sp' => l' = l /\ heap_wf h' l outer /\ read_sitepages h' l = Some sp' /\ same_keys h h'
  | None, None => True
  | _, _ => False
  end.
Proof.
  induction ks as [|p ks IH]; intros h sp W R.
  - simpl. split; [reflexivity|split; [exact W|split; [exact R|apply same_keys_refl]]].
  - cbn [mi_pages_h interlink_all map]. unfold interlink_target.
    pose proof (apply_regxs_h_spec (page_basename p) (page_link subdir p) l outer (page_regxs subdir p) h sp W R) as S.
    destruct (apply_regxs_h _ _ _ (h, l)) as [[h1 l1]|];
      destruct (apply_regxs (page_regxs subdir p) (page_basename p) (page_link subdir p) sp) as [sp1|];
      try contradiction; trivial.
    destruct S as [-> [W1 [R1 K1]]]. specialize (IH h1 sp1 W1 R1).
    destruct (mi_pages_h subdir ks (h1, l)) as [[h2 l2]|];
      destruct (interlink_all (map (fun p => (subdir, p)) ks) sp1) as [sp2|]; try contradiction; trivial.
    destruct IH as [-> [W2 [R2 K2]]]. split; [reflexivity|split; [exact W2|split; [exact R2|]]].
    exact (same_keys_trans _ _ _ K1 K2).
Qed.

Lemma interlink_all_app (a c : list (string * string)) (sp : sitepages) :
  interlink_all (a ++ c) sp = obind (interlink_all a sp) (interlink_all c).
Proof.
  revert sp; induction a as [|t a IH]; intros sp; simpl; [reflexivity|].
  destruct (interlink_target sp t); [apply IH|reflexivity].
Qed.

Lemma read_sections_same_keys (h h' : heap) (rest : dict nat) (sr : sitepages) :
  same_keys h h' -> read_sections h rest = Some sr ->
  exists sr', read_sections h' rest = Some sr' /\ page_keys sr' = page_keys sr.
Proof.
  intros K; revert sr; induction rest as [|[s li] rest IH]; intros sr H; simpl in H.
  - injection H as <-. exists []; split; reflexivity.
  - destruct (hget h li) as [[|d]|] eqn:Hd; try discriminate.
    destruct (read_sections h rest) as [sr0|]; [|discriminate]. injection H as <-.
    destruct (K _ _ Hd) as [d' [Hd' Kd]]. destruct (IH sr0 eq_refl) as [sr1 [R1 P1]].
    exists ((s, d') :: sr1). simpl. rewrite Hd', R1. split; [reflexivity|].
    unfold page_keys in *. simpl. rewrite P1. f_equal.
    unfold keys in Kd. rewrite <- !(map_map fst (fun p => (s, p))), Kd. reflexivity.
Qed.

Lemma mi_sections_h_spec (l : nat) (outer : dict nat) (rest : dict nat) :
  forall h sp sr, heap_wf h l outer -> read_sitepages h l = Some sp -> read_sections h rest = Some sr ->
  match mi_sections_h rest (h, l), interlink_all (page_keys sr) sp with
  | Some (h', l'), Some sp' => l' = l /\ read_sitepages h' l = Some sp'
  | None, None => True
  | _, _ => False
  end.
Proof.
  induction rest as [|[s li] rest IH]; intros h sp sr W R Hr.
  - simpl in Hr. injection Hr as <-. simpl. split; [reflexivity|exact R].
  - simpl in Hr. destruct (hget h li) as [[|d]|] eqn:Hd; try discriminate.
    destruct (read_sections h rest) as [sr0|] eqn:Er; [|discriminate]. injection Hr as <-.
    cbn [mi_sections_h fst]. rewrite Hd.
    replace (page_keys ((s, d) :: sr0)) with (map (fun p => (s, p)) (keys d) ++ page_keys sr0)
      by (unfold page_keys, keys; simpl; rewrite map_map; reflexivity).
    rewrite interlink_all_app.
    pose proof (mi_pages_h_spec s l outer (keys d) h sp W R) as S.
    destruct (mi_pages_h s (keys d) (h, l)) as [[h1 l1]|];
      destruct (interlink_all (map (fun p => (s, p)) (keys d)) sp) as [sp1|]; try contradiction; simpl; trivial.
    destruct S as [-> [W1 [R1 K1]]].
    destruct (read_sections_same_keys _ _ _ _ K1 Er) as [sr1 [Er1 P1]].
    rewrite <- P1. exact (IH h1 sp1 sr1 W1 R1 Er1).
Qed.

(** C8 (amended).  make_interlinks does not copy the catalog: it rewrites
    the inner dicts of the object it is given in place and returns that
    same object (the location it returns is the input's), which then holds
    the rewritten catalog.  After the call the caller's reference to the
    input therefore sees the new contents. *)
Theorem make_interlinks_in_place (h : heap) (l : nat) (outer : dict nat) (sp : sitepages) :
  heap_wf h l outer -> read_sitepages h l = Some sp ->
  match make_interlinks_h h l, make_interlinks sp with
  | Some (h', l'), Some sp' => l' = l /\ read_sitepages h' l = Some sp'
  | None, None => True
  | _, _ => False
  end.
Proof.
  intros W R. pose proof W as [Hl _]. unfold make_interlinks_h, make_interlinks. rewrite Hl.
  apply (mi_sections_h_spec l outer outer h sp sp W R).
  unfold read_sitepages in R. rewrite Hl in R. exact R.
Qed.

Lemma make_interlinks_in_place_witness :
  match make_interlinks_h [HOuter [("components-grid", 1); ("components", 2)];
                           HInner [("fmonagent.md", "")]; HInner [("icinga.md", "I refer to `fmonagent`.")]] 0,
        make_interlinks [("components-grid", [("fmonagent.md", "")]);
                         ("components", [("icinga.md", "I refer to `fmonagent`.")])] with
  | Some (h', l'), Some sp' => l' = 0 /\ read_sitepages h' 0 = Some sp'
  | None, None => True
  | _, _ => False
  end.
Proof.
  apply (make_interlinks_in_place _ 0 [("components-grid", 1); ("components", 2)]); [|reflexivity].
  split; [reflexivity|split; [simpl; nodup_tac|split; [simpl; lia|]]].
  repeat constructor; eexists; (split; [reflexivity|simpl; nodup_tac]).
Defined.

(** C8 fails as stated: the catalog the caller passed in is changed by the
    call, and the returned value is that same object. *)
Lemma make_interlinks_mutates_input :
  read_sitepages [HOuter [("components-grid", 1); ("components", 2)];
                  HInner [("fmonagent.md", "")]; HInner [("icinga.md", "I refer to `fmonagent`.")]] 0
  = Some [("components-grid", [("fmonagent.md", "")]); ("components", [("icinga.md", "I refer to `fmonagent`.")])]
  /\ make_interlinks_h [HOuter [("components-grid", 1); ("components", 2)];
                        HInner [("fmonagent.md", "")]; HInner [("icinga.md", "I refer to `fmonagent`.")]] 0
     = Some ([HOuter [("components-grid", 1); ("components", 2)];
              HInner [("fmonagent.md", "")];
              HInner [("icinga.md", "I refer to [fmonagent](../components-grid/fmonagent.md).")]], 0).
Proof. split; vm_compute; reflexivity. Qed.

(* ------------------------------------------------------------------ *)
(** ** Determinism of [write_site] (relative output trees) *)

Lemma path_eqb_true (p q : path) : path_eqb p q = true <-> p = q.
Proof. unfold path_eqb; destruct (list_eq_dec string_dec p q); split; congruence. Qed.

Lemma path_eqb_app_l (l a b : path) : path_eqb (l ++ a) (l ++ b) = path_eqb a b.
Proof.
  unfold path_eqb.
  destruct (list_eq_dec string_dec (l ++ a) (l ++ b)) as [E|E],
           (list_eq_dec string_dec a b) as [E'|E']; try reflexivity.
  - apply app_inv_head in E; congruence.
  - subst; congruence.
Qed.

Lemma is_file_content (fs : fsys) (p : path) :
  is_file fs p = match file_content fs p with Some _ => true | None => false end.
Proof.
  unfold is_file, file_content. induction (fs_files fs) as [|[q c] fl IH]; [reflexivity|].
  cbn [map existsb find fst]. destruct (path_eqb p q); [reflexivity|exact IH].
Qed.

Lemma is_dir_ne (fs : fsys) (p : path) : p <> [] -> is_dir fs p = existsb (path_eqb p) (fs_dirs fs).
Proof. destruct p; [congruence|reflexivity]. Qed.

Lemma is_dir_add_dir (fs : fsys) (q p : path) :
  p <> [] -> is_dir (add_dir q fs) p = path_eqb p q || is_dir fs p.
Proof. intro Hp. rewrite !is_dir_ne by exact Hp. reflexivity. Qed.

Lemma is_dir_add_dir_mono (fs : fsys) (q p : path) :
  is_dir fs p = true -> is_dir (add_dir q fs) p = true.
Proof.
  destruct p as [|x p]; [reflexivity|]. intro H.
  rewrite is_dir_add_dir by congruence. rewrite H, orb_true_r. reflexivity.
Qed.

Lemma app_ne_r (l r : path) : r <> [] -> l ++ r <> [].
Proof. destruct l; [auto|discriminate]. Qed.

Lemma find_filter_irrel {A} (f g : A -> bool) (l : list A) :
  (forall e, f e = true -> g e = true) -> find f (filter g l) = find f l.
Proof.
  intro H. induction l as [|e l IH]; [reflexivity|]. cbn [filter find].
  destruct (f e) eqn:Ef.
  - rewrite (H e Ef). cbn [find]. rewrite Ef. reflexivity.
  - destruct (g e); cbn [find]; [rewrite Ef|]; exact IH.
Qed.

Lemma write_file_ne (fs : fsys) (p : path) (c : string) :
  p <> [] ->
  write_file fs p c =
  if is_dir fs (removelast p) && negb (is_dir fs p)
  then Some {| fs_dirs := fs_dirs fs;
               fs_files := (p, c) :: filter (fun e => negb (path_eqb (fst e) p)) (fs_files fs) |}
  else None.
Proof. destruct p; [congruence|reflexivity]. Qed.

Lemma file_content_written (fs : fsys) (p x : path) (c : string) :
  file_content {| fs_dirs := fs_dirs fs;
                  fs_files := (p, c) :: filter (fun e => negb (path_eqb (fst e) p)) (fs_files fs) |} x
  = if path_eqb x p then Some c else file_content fs x.
Proof.
  unfold file_content. cbn [fs_files find fst].
  destruct (path_eqb x p) eqn:E; [reflexivity|].
  rewrite find_filter_irrel; [reflexivity|].
  intros [q d] Hq. cbn [fst] in *. apply path_eqb_true in Hq. subst q. rewrite E. reflexivity.
Qed.

(** The invariant carried through a pair of runs. *)
Definition rel_state (loc1 loc2 : path) (fs1 fs2 : fsys) : Prop :=
  same_tree fs1 loc1 fs2 loc2 /\ ancestors_ok fs1 loc1 /\ ancestors_ok fs2 loc2.

Definition rel_opt {A} (R : A -> A -> Prop) (o1 o2 : option A) : Prop :=
  match o1, o2 with
  | Some a, Some b => R a b
  | None, None => True
  | _, _ => False
  end.

Lemma prefix_not_ext (loc r q' t : path) :
  r <> [] -> q' ++ t = loc -> q' <> loc ++ r.
Proof.
  intros Hr E Eq. subst. rewrite <- app_assoc in Eq.
  apply (f_equal (@length string)) in Eq. rewrite !length_app in Eq.
  destruct r; [congruence|]; destruct t; cbn in Eq; lia.
Qed.

Lemma write_file_rel (loc1 loc2 rr : path) (c : string) (fs1 fs2 : fsys) :
  rr <> [] -> rel_state loc1 loc2 fs1 fs2 ->
  rel_opt (rel_state loc1 loc2) (write_file fs1 (loc1 ++ rr) c) (write_file fs2 (loc2 ++ rr) c).
Proof.
  intros Hr [[D F] [A1 A2]].
  rewrite !write_file_ne by (apply app_ne_r; exact Hr).
  rewrite !removelast_app by exact Hr.
  assert (Hc : is_dir fs1 (loc1 ++ removelast rr) = is_dir fs2 (loc2 ++ removelast rr)).
  { destruct (removelast rr) eqn:E.
    - rewrite !app_nil_r. rewrite (proj1 (A1 loc1 [] (app_nil_r _))), (proj1 (A2 loc2 [] (app_nil_r _))).
      reflexivity.
    - apply D. discriminate. }
  rewrite Hc, (D rr Hr).
  destruct (is_dir fs2 (loc2 ++ removelast rr) && negb (is_dir fs2 (loc2 ++ rr))); [|exact I].
  cbn [rel_opt]. split; [split|split].
  - intros r Hr'. rewrite !is_dir_ne by (apply app_ne_r; exact Hr'). cbn [fs_dirs].
    rewrite <- !is_dir_ne by (apply app_ne_r; exact Hr'). apply D; exact Hr'.
  - intro r. rewrite !file_content_written, !path_eqb_app_l. rewrite F. reflexivity.
  - intros q t Eq. destruct (A1 q t Eq) as [Hd Hf]. split.
    + rewrite <- Hd. destruct q; [reflexivity|]. rewrite !is_dir_ne by discriminate. reflexivity.
    + rewrite is_file_content, file_content_written.
      destruct (path_eqb q (loc1 ++ rr)) eqn:E.
      * apply path_eqb_true in E. exfalso. exact (prefix_not_ext _ _ _ _ Hr Eq E).
      * rewrite is_file_content in Hf. exact Hf.
  - intros q t Eq. destruct (A2 q t Eq) as [Hd Hf]. split.
    + rewrite <- Hd. destruct q; [reflexivity|]. rewrite !is_dir_ne by discriminate. reflexivity.
    + rewrite is_file_content, file_content_written.
      destruct (path_eqb q (loc2 ++ rr)) eqn:E.
      * apply path_eqb_true in E. exfalso. exact (prefix_not_ext _ _ _ _ Hr Eq E).
      * rewrite is_file_content in Hf. exact Hf.
Qed.

Lemma add_dir_rel (loc1 loc2 d : path) (fs1 fs2 : fsys) :
  d <> [] -> rel_state loc1 loc2 fs1 fs2 ->
  rel_state loc1 loc2 (add_dir (loc1 ++ d) fs1) (add_dir (loc2 ++ d) fs2).
Proof.
  intros Hd [[D F] [A1 A2]]. split; [split|split].
  - intros r Hr. rewrite !is_dir_add_dir by (apply app_ne_r; exact Hr).
    rewrite !path_eqb_app_l, (D r Hr). reflexivity.
  - exact F.
  - intros q t E. destruct (A1 q t E) as [H1 H2]. split; [apply is_dir_add_dir_mono; exact H1|exact H2].
  - intros q t E. destruct (A2 q t E) as [H1 H2]. split; [apply is_dir_add_dir_mono; exact H1|exact H2].
Qed.

Lemma makedirs_go_rel (loc1 loc2 : path) :
  forall r d fs1 fs2, rel_state loc1 loc2 fs1 fs2 ->
  rel_opt (rel_state loc1 loc2) (makedirs_go (loc1 ++ d) r fs1) (makedirs_go (loc2 ++ d) r fs2).
Proof.
  induction r as [|c r IH]; intros d fs1 fs2 Hs; [exact Hs|].
  cbn [makedirs_go]. rewrite <- !app_assoc.
  pose proof Hs as [[D F] _].
  assert (Hne : d ++ [c] <> []) by (apply app_ne_r; discriminate).
  rewrite !is_file_content, (F (d ++ [c])), (D _ Hne).
  destruct (file_content fs2 (loc2 ++ d ++ [c])); [exact I|].
  destruct (is_dir fs2 (loc2 ++ d ++ [c])).
  - apply IH; exact Hs.
  - apply IH, add_dir_rel; [exact Hne|exact Hs].
Qed.

Lemma makedirs_go_skip (fs : fsys) (r : path) :
  forall a done,
  (forall a1 a2, a1 ++ a2 = a -> a1 <> [] ->
     is_dir fs (done ++ a1) = true /\ is_file fs (done ++ a1) = false) ->
  makedirs_go done (a ++ r) fs = makedirs_go (done ++ a) r fs.
Proof.
  induction a as [|c a IH]; intros done H.
  - rewrite app_nil_r. reflexivity.
  - cbn [app makedirs_go].
    destruct (H [c] a eq_refl ltac:(discriminate)) as [Hd Hf].
    rewrite Hf, Hd. rewrite IH.
    + rewrite <- app_assoc. reflexivity.
    + intros a1 a2 E Ne. rewrite <- app_assoc. apply (H (c :: a1) a2); [cbn; rewrite E; reflexivity|discriminate].
Qed.

Lemma makedirs_under (fs : fsys) (loc r : path) :
  ancestors_ok fs loc -> path_exists fs (loc ++ r) = false ->
  makedirs fs (loc ++ r) = makedirs_go (loc ++ []) r fs.
Proof.
  intros A Hp. unfold makedirs. rewrite Hp, app_nil_r.
  apply (makedirs_go_skip fs r loc []). intros a1 a2 E _. exact (A a1 a2 E).
Qed.

Lemma path_exists_rel (loc1 loc2 r : path) (fs1 fs2 : fsys) :
  r <> [] -> rel_state loc1 loc2 fs1 fs2 ->
  path_exists fs1 (loc1 ++ r) = path_exists fs2 (loc2 ++ r).
Proof.
  intros Hr [[D F] _]. unfold path_exists. rewrite !is_file_content, (D r Hr), (F r). reflexivity.
Qed.

Lemma write_pages_rel (loc1 loc2 sub : path) (subdir : string) :
  forall pages fs1 fs2 (t : dict (list string)), rel_state loc1 loc2 fs1 fs2 ->
  rel_opt (fun a b => rel_state loc1 loc2 (fst a) (fst b) /\ snd a = snd b)
    (write_pages subdir (loc1 ++ sub) pages (fs1, t)) (write_pages subdir (loc2 ++ sub) pages (fs2, t)).
Proof.
  induction pages as [|[p c] ps IH]; intros fs1 fs2 t Hs; [cbn; split; [exact Hs|reflexivity]|].
  cbn [write_pages fst snd]. rewrite <- !app_assoc.
  pose proof (write_file_rel loc1 loc2 (sub ++ [p]) c fs1 fs2
                (app_ne_r sub [p] ltac:(discriminate)) Hs) as W.
  destruct (write_file fs1 (loc1 ++ sub ++ [p]) c), (write_file fs2 (loc2 ++ sub ++ [p]) c);
    try contradiction; [|exact I].
  apply IH; exact W.
Qed.

Lemma write_sections_rel (loc1 loc2 : path) (docsdir : string) :
  forall sp fs1 fs2 (t : list (string * list string)), rel_state loc1 loc2 fs1 fs2 ->
  rel_opt (fun a b => rel_state loc1 loc2 (fst a) (fst b) /\ snd a = snd b)
    (write_sections loc1 docsdir sp (fs1, t)) (write_sections loc2 docsdir sp (fs2, t)).
Proof.
  induction sp as [|[s pages] rest IH]; intros fs1 fs2 t Hs; [cbn; split; [exact Hs|reflexivity]|].
  cbn [write_sections fst snd].
  rewrite (path_exists_rel loc1 loc2 [docsdir; s] fs1 fs2 ltac:(discriminate) Hs).
  assert (M : rel_opt (rel_state loc1 loc2)
                (if path_exists fs2 (loc2 ++ [docsdir; s]) then Some fs1 else makedirs fs1 (loc1 ++ [docsdir; s]))
                (if path_exists fs2 (loc2 ++ [docsdir; s]) then Some fs2 else makedirs fs2 (loc2 ++ [docsdir; s]))).
  { destruct (path_exists fs2 (loc2 ++ [docsdir; s])) eqn:P; [exact Hs|].
    pose proof Hs as [_ [A1 A2]].
    rewrite (makedirs_under fs1 loc1), (makedirs_under fs2 loc2) by
      (try exact A1; try exact A2; try exact P;
       rewrite (path_exists_rel loc1 loc2 [docsdir; s] fs1 fs2 ltac:(discriminate) Hs); exact P).
    apply makedirs_go_rel; exact Hs. }
  destruct (if path_exists fs2 (loc2 ++ [docsdir; s]) then Some fs1 else makedirs fs1 (loc1 ++ [docsdir; s]))
    as [g1|], (if path_exists fs2 (loc2 ++ [docsdir; s]) then Some fs2 else makedirs fs2 (loc2 ++ [docsdir; s]))
    as [g2|]; try contradiction; [|exact I].
  destruct (write_pages s (loc1 ++ [docsdir; s]) pages (g1, dict_set t s [])) as [[h1 t1]|] eqn:E1,
           (write_pages s (loc2 ++ [docsdir; s]) pages (g2, dict_set t s [])) as [[h2 t2]|] eqn:E2;
    pose proof (write_pages_rel loc1 loc2 [docsdir; s] s pages g1 g2 (dict_set t s []) M) as W;
    rewrite E1, E2 in W; cbn [rel_opt] in W; try contradiction; [|exact I].
  destruct W as [Hh Ht]. cbn [fst snd] in Hh, Ht. subst t2. apply IH; exact Hh.
Qed.

Lemma empty_output_rel (fs1 fs2 : fsys) (loc1 loc2 : path) :
  empty_output_dir fs1 loc1 -> empty_output_dir fs2 loc2 -> rel_state loc1 loc2 fs1 fs2.
Proof.
  intros [A1 [D1 F1]] [A2 [D2 F2]]. split; [split|split; assumption].
  - intros r Hr. rewrite (D1 r Hr), (D2 r Hr). reflexivity.
  - intro r. rewrite F1, F2. reflexivity.
Qed.

Lemma path_eqb_refl (p : path) : path_eqb p p = true.
Proof. apply path_eqb_true; reflexivity. Qed.

Lemma empty_output_dir_single (d : string) (files : list (path * string)) :
  (forall e, In e files -> exists x rest, fst e = x :: rest /\ x <> d) ->
  empty_output_dir {| fs_dirs := [[d]]; fs_files := files |} [d].
Proof.
  intro Hf.
  assert (NF : forall r, find (fun e => path_eqb (d :: r) (fst e)) files = None).
  { intro r. destruct (find _ files) as [e|] eqn:Ef; [|reflexivity].
    apply find_some in Ef as [Hin Hp]. apply path_eqb_true in Hp.
    destruct (Hf e Hin) as [x [rest [Hx Hxd]]]. rewrite Hx in Hp. congruence. }
  assert (NF' : forall q, (exists r, q = d :: r) \/ q = [] ->
             is_file {| fs_dirs := [[d]]; fs_files := files |} q = false).
  { intros q Hq. unfold is_file. cbn [fs_files].
    destruct (existsb (path_eqb q) (map fst files)) eqn:Ee; [|reflexivity].
    apply existsb_exists in Ee as [p [Hin Hp]]. apply in_map_iff in Hin as [e [He Hin]].
    apply path_eqb_true in Hp. subst p q.
    destruct (Hf e Hin) as [x [rest [Hx Hxd]]]. rewrite Hx in Hq.
    destruct Hq as [[r Hr]|Hr]; congruence. }
  split; [|split].
  - intros q t E. destruct q as [|x q].
    + split; [reflexivity|]. apply NF'. right; reflexivity.
    + cbn in E. injection E as Ex Eq. subst x.
      destruct q; [|discriminate]. split.
      * cbn. rewrite path_eqb_refl. reflexivity.
      * apply NF'. left; exists []; reflexivity.
  - intros r Hr. cbn [app]. unfold is_dir. cbn [fs_dirs existsb].
    destruct (path_eqb (d :: r) [d]) eqn:E; [|reflexivity].
    apply path_eqb_true in E. injection E as E. contradiction.
  - intro r. unfold file_content. cbn [fs_files app]. rewrite NF. reflexivity.
Qed.

(** C9: [write_site] run on the same SitePages value into two existing,
    empty output directories (possibly in different file systems) either
    raises in both runs or in neither; when both succeed, the two output
    trees hold the same directories and the same (relative path, content)
    pairs, and the two tables of contents are equal. *)
Theorem write_site_deterministic (render : toc -> option string) (fs1 fs2 : fsys)
    (loc1 loc2 : path) (docsdir : string) (sp : sitepages) :
  empty_output_dir fs1 loc1 -> empty_output_dir fs2 loc2 ->
  match write_site render fs1 loc1 docsdir sp, write_site render fs2 loc2 docsdir sp with
  | Some (fs1', t1), Some (fs2', t2) => same_tree fs1' loc1 fs2' loc2 /\ t1 = t2
  | None, None => True
  | _, _ => False
  end.
Proof.
  intros E1 E2. pose proof (empty_output_rel fs1 fs2 loc1 loc2 E1 E2) as Hs.
  pose proof (write_sections_rel loc1 loc2 docsdir sp fs1 fs2 [] Hs) as W.
  unfold write_site.
  destruct (write_sections loc1 docsdir sp (fs1, [])) as [[h1 t1]|],
           (write_sections loc2 docsdir sp (fs2, [])) as [[h2 t2]|];
    cbn [rel_opt] in W; try contradiction; [|exact I].
  destruct W as [Hh Ht]. cbn [fst snd] in Hh, Ht. subst t2.
  unfold write_toc. destruct (render t1) as [tocfile|]; [|exact I].
  pose proof (write_file_rel loc1 loc2 ["mkdocs.yml"] tocfile h1 h2 ltac:(discriminate) Hh) as W.
  destruct (write_file h1 (loc1 ++ ["mkdocs.yml"]) tocfile),
           (write_file h2 (loc2 ++ ["mkdocs.yml"]) tocfile);
    cbn [rel_opt] in W; try contradiction; [|exact I].
  split; [exact (proj1 W)|reflexivity].
Qed.

Lemma write_site_deterministic_witness :
  empty_output_dir {| fs_dirs := [["o"]]; fs_files := [] |} ["o"]
  /\ empty_output_dir {| fs_dirs := [["p"]]; fs_files := [(["q"], "x")] |} ["p"]
  /\ match write_site (fun _ => Some "nav") {| fs_dirs := [["o"]]; fs_files := [] |} ["o"] "docs"
              [("CCM", [("fetch::download.md", "# NAME")]);
               ("components", [("fmonagent.md", "Hello"); ("profile::functions.md", "Fns")])],
           write_site (fun _ => Some "nav") {| fs_dirs := [["p"]]; fs_files := [(["q"], "x")] |} ["p"] "docs"
              [("CCM", [("fetch::download.md", "# NAME")]);
               ("components", [("fmonagent.md", "Hello"); ("profile::functions.md", "Fns")])] with
     | Some (fs1', t1), Some (fs2', t2) => same_tree fs1' ["o"] fs2' ["p"] /\ t1 = t2
     | None, None => True
     | _, _ => False
     end.
Proof.
  assert (E1 : empty_output_dir {| fs_dirs := [["o"]]; fs_files := [] |} ["o"]).
  { apply empty_output_dir_single. intros e []. }
  assert (E2 : empty_output_dir {| fs_dirs := [["p"]]; fs_files := [(["q"], "x")] |} ["p"]).
  { apply empty_output_dir_single. intros e [<-|[]]. exists "q", []. split; [reflexivity|discriminate]. }
  split; [exact E1|split; [exact E2|]].
  apply write_site_deterministic; [exact E1|exact E2].
Defined.

(* ------------------------------------------------------------------ *)
(** ** check_input on an output location that is a regular file *)

Lemma stat_nonempty (pr : proc) (fs : fsys) (s : string) (p : path) :
  stat pr fs s = Ret p -> String.eqb s "" = false.
Proof.
  unfold stat. destruct (str_contains nul s); [discriminate|].
  destruct (String.eqb s ""); [discriminate|reflexivity].
Qed.

Lemma exists_str_stat (pr : proc) (fs : fsys) (s : string) :
  exists_str pr fs s = Ret true <-> exists p, stat pr fs s = Ret p.
Proof.
  unfold exists_str. split.
  - destruct (stat pr fs s) as [p|[e| | |]]; try discriminate. intros _. exists p; reflexivity.
  - intros [p ->]. reflexivity.
Qed.

(** C10: when the source location exists and the output location exists
    ([os.stat] finds it) but is not a directory, i.e. is a regular file,
    [check_input] returns neither [True] nor [False]: after the first log
    line it raises the [OSError] of [os.listdir] (ENOTDIR), with no
    diagnostic of its own. *)
Theorem check_input_output_is_file (pr : proc) (fs : fsys) (sourceloc outputloc : string) (p : path) :
  exists_str pr fs sourceloc = Ret true ->
  stat pr fs outputloc = Ret p ->
  is_dir fs p = false ->
  check_input pr fs sourceloc outputloc = (["Checking if the given paths exist."], Raise (OSError "ENOTDIR")).
Proof.
  intros Hs Ho Hd.
  destruct (proj1 (exists_str_stat pr fs sourceloc) Hs) as [ps Hps].
  unfold check_input. rewrite (stat_nonempty _ _ _ _ Hps), (stat_nonempty _ _ _ _ Ho), Hs.
  unfold exists_str, listdir. rewrite Ho, Hd. reflexivity.
Qed.

Lemma check_input_output_is_file_witness :
  exists_str {| proc_cwd := []; proc_nosearch := []; proc_noread := [] |}
    {| fs_dirs := [["tmp"]]; fs_files := [(["tmp"; "f"], "")] |} "/tmp" = Ret true
  /\ stat {| proc_cwd := []; proc_nosearch := []; proc_noread := [] |}
       {| fs_dirs := [["tmp"]]; fs_files := [(["tmp"; "f"], "")] |} "/tmp/f" = Ret ["tmp"; "f"]
  /\ is_dir {| fs_dirs := [["tmp"]]; fs_files := [(["tmp"; "f"], "")] |} ["tmp"; "f"] = false
  /\ check_input {| proc_cwd := []; proc_nosearch := []; proc_noread := [] |}
       {| fs_dirs := [["tmp"]]; fs_files := [(["tmp"; "f"], "")] |} "/tmp" "/tmp/f"
     = (["Checking if the given paths exist."], Raise (OSError "ENOTDIR")).
Proof.
  split; [vm_compute; reflexivity|split; [vm_compute; reflexivity|split; [vm_compute; reflexivity|]]].
  apply (check_input_output_is_file _ _ _ _ ["tmp"; "f"]); vm_compute; reflexivity.
Defined.

(* ================================================================== *)
(** * Further properties of the code *)

(* ------------------------------------------------------------------ *)
(** ** build_site_structure: names, sections and exceptions *)

Lemma prefix_char (c d : ascii) (w : string) :
  prefix (String c "") (String d w) = if ascii_dec c d then true else false.
Proof. cbn [prefix]. destruct (ascii_dec c d); [destruct w|]; reflexivity. Qed.

Lemma contains_char_app (c : ascii) (a b : string) :
  str_contains (String c "") (a +s+ b) = str_contains (String c "") a || str_contains (String c "") b.
Proof.
  induction a as [|d a IH]; [reflexivity|].
  cbn [String.append str_contains]. rewrite !prefix_char, IH.
  destruct (ascii_dec c d); reflexivity.
Qed.

Lemma replace_sep_noslash (x : string) : str_contains "/" (replace_sep x) = false.
Proof.
  induction x as [|c x IH]; [reflexivity|]. cbn [replace_sep].
  destruct (Ascii.eqb_spec c "/") as [->|Hc].
  - rewrite contains_char_app, IH. reflexivity.
  - cbn [str_contains]. rewrite prefix_char, IH.
    destruct (ascii_dec "/" c) as [E|]; [congruence|reflexivity].
Qed.

Lemma new_name_shape (source t n : string) : new_name source t = Some n -> md_page_name n.
Proof.
  unfold new_name. destruct (py_split source t); [|discriminate]. intros [= <-]. split.
  - eexists; reflexivity.
  - rewrite contains_char_app, replace_sep_noslash. reflexivity.
Qed.

Lemma In_dict_set {V} (d : dict V) (k k' : string) (v v' : V) :
  In (k', v') (dict_set d k v) -> (k', v') = (k, v) \/ In (k', v') d.
Proof.
  induction d as [|[k0 v0] d IH]; cbn [dict_set].
  - intros [E|[]]. left; symmetry; exact E.
  - destruct (String.eqb k k0).
    + intros [E|H]; [left; symmetry; exact E|right; right; exact H].
    + intros [E|H]; [right; left; exact E|]. destruct (IH H); [left|right; right]; assumption.
Qed.

Lemma dict_get_In {V} (d : dict V) (k : string) (v : V) : dict_get d k = Some v -> In (k, v) d.
Proof.
  induction d as [|[k0 v0] d IH]; cbn [dict_get]; [discriminate|].
  destruct (String.eqb_spec k k0) as [->|]; [intros [= ->]; left; reflexivity|].
  intro H; right; exact (IH H).
Qed.

Lemma place_page_names (sec source md : string) (tgts : list string) :
  forall found sp sp' f, place_page sec source md tgts found sp = Some (sp', f) ->
  (forall s d n c, In (s, d) sp -> In (n, c) d -> md_page_name n) ->
  forall s d n c, In (s, d) sp' -> In (n, c) d -> md_page_name n.
Proof.
  induction tgts as [|t ts IH]; intros found sp sp' f H Hok; cbn [place_page] in H.
  - injection H as -> _. exact Hok.
  - destruct (str_contains t source && negb found); [|exact (IH _ _ _ _ H Hok)].
    destruct (new_name source t) as [nn|] eqn:En; [|discriminate].
    destruct (dict_get sp sec) as [inner|] eqn:Ei; [|discriminate].
    apply (IH _ _ _ _ H). intros s d n c Hs Hn.
    destruct (In_dict_set _ _ _ _ _ Hs) as [E|Hs'].
    + injection E as -> ->. destruct (In_dict_set _ _ _ _ _ Hn) as [E'|Hn'].
      * injection E' as -> ->. exact (new_name_shape _ _ _ En).
      * exact (Hok _ _ _ _ (dict_get_In _ _ _ Ei) Hn').
    + exact (Hok _ _ _ _ Hs' Hn).
Qed.

Lemma process_pages_names (sec : string) (tgts : list string) (pages : dict string) :
  forall st st', process_pages sec tgts pages st = Some st' ->
  (forall s d n c, In (s, d) (fst st) -> In (n, c) d -> md_page_name n) ->
  forall s d n c, In (s, d) (fst st') -> In (n, c) d -> md_page_name n.
Proof.
  induction pages as [|[source md] ps IH]; intros [sp log] st' H Hok; cbn [process_pages] in H.
  - injection H as <-. exact Hok.
  - destruct (process_page sec tgts (sp, log) (source, md)) as [st1|] eqn:E1; [|discriminate].
    apply (IH _ _ H). unfold process_page in E1.
    destruct (place_page sec source md tgts false sp) as [[sp1 f]|] eqn:Ep; [|discriminate].
    injection E1 as <-. exact (place_page_names _ _ _ _ _ _ _ _ Ep Hok).
Qed.

Lemma process_repos_names (rm : dict repo_desc) (ml : dict (dict string)) :
  forall st st', process_repos rm ml st = Some st' ->
  (forall s d n c, In (s, d) (fst st) -> In (n, c) d -> md_page_name n) ->
  forall s d n c, In (s, d) (fst st') -> In (n, c) d -> md_page_name n.
Proof.
  induction ml as [|[repo mds] es IH]; intros st st' H Hok; cbn [process_repos] in H.
  - injection H as <-. exact Hok.
  - destruct (process_repo rm st (repo, mds)) as [st1|] eqn:E1; [|discriminate].
    apply (IH _ _ H). unfold process_repo in E1.
    destruct (dict_get rm repo) as [desc|]; [|discriminate].
    apply (process_pages_names _ _ _ _ _ E1). cbn [fst].
    intros s d n c Hs Hn. destruct (In_dict_set _ _ _ _ _ Hs) as [E|Hs'].
    + injection E as -> ->. destruct Hn.
    + exact (Hok _ _ _ _ Hs' Hn).
Qed.

(** Every page name in the SitePages built by [build_site_structure] ends
    in ".md" and contains no "/". *)
Theorem site_page_names_md (ml : dict (dict string)) (rm : dict repo_desc) (sp : sitepages) (log : list err) :
  build_site_structure ml rm = Some (sp, log) ->
  forall section pages name content, In (section, pages) sp -> In (name, content) pages ->
  md_page_name name.
Proof.
  intros H. apply (process_repos_names _ _ _ _ H). intros s d n c [].
Qed.

Lemma site_page_names_md_witness :
  build_site_structure test_markdown test_repomap =
    Some ([("CCM", [("Fetch::Download.md", "# NAME")]);
           ("components", [("profile::functions.md", "Functions"); ("fmonagent.md", "Hello");
                           ("aii::freeipa::schema.md", "Hello2")])], [])
  /\ In ("components", [("profile::functions.md", "Functions"); ("fmonagent.md", "Hello");
                        ("aii::freeipa::schema.md", "Hello2")])
        [("CCM", [("Fetch::Download.md", "# NAME")]);
         ("components", [("profile::functions.md", "Functions"); ("fmonagent.md", "Hello");
                         ("aii::freeipa::schema.md", "Hello2")])]
  /\ In ("aii::freeipa::schema.md", "Hello2")
        [("profile::functions.md", "Functions"); ("fmonagent.md", "Hello"); ("aii::freeipa::schema.md", "Hello2")]
  /\ md_page_name "aii::freeipa::schema.md".
Proof.
  assert (H : build_site_structure test_markdown test_repomap =
    Some ([("CCM", [("Fetch::Download.md", "# NAME")]);
           ("components", [("profile::functions.md", "Functions"); ("fmonagent.md", "Hello");
                           ("aii::freeipa::schema.md", "Hello2")])], [])) by (vm_compute; reflexivity).
  split; [exact H|split; [simpl; auto|split; [simpl; auto|]]].
  exact (site_page_names_md _ _ _ _ H "components" _ "aii::freeipa::schema.md" "Hello2"
           ltac:(simpl; auto) ltac:(simpl; auto)).
Defined.

Lemma In_keys_dict_set {V} (d : dict V) (k x : string) (v : V) :
  In x (keys (dict_set d k v)) <-> x = k \/ In x (keys d).
Proof.
  induction d as [|[k0 v0] d IH]; cbn [dict_set keys map fst].
  - split; [intros [E|[]]; left; symmetry; exact E|intros [E|[]]; left; symmetry; exact E].
  - destruct (String.eqb_spec k k0) as [->|Hk]; cbn [keys map fst].
    + split; [intros [E|H]; [left; symmetry; exact E|right; right; exact H]|].
      intros [E|[E|H]]; [left; symmetry; exact E|left; exact E|right; exact H].
    + cbn [In]. change (map fst (dict_set d k v)) with (keys (dict_set d k v)).
      change (map fst d) with (keys d). rewrite IH. tauto.
Qed.

Lemma dict_get_keys {V} (d : dict V) (k : string) (v : V) : dict_get d k = Some v -> In k (keys d).
Proof. intro H. apply (in_map fst _ (k, v)), dict_get_In, H. Qed.

Lemma place_page_keys (sec source md : string) (tgts : list string) :
  forall found sp sp' f, place_page sec source md tgts found sp = Some (sp', f) ->
  forall x, In x (keys sp') <-> In x (keys sp).
Proof.
  induction tgts as [|t ts IH]; intros found sp sp' f H; cbn [place_page] in H.
  - injection H as -> _. reflexivity.
  - destruct (str_contains t source && negb found); [|exact (IH _ _ _ _ H)].
    destruct (new_name source t) as [nn|]; [|discriminate].
    destruct (dict_get sp sec) as [inner|] eqn:Ei; [|discriminate].
    intro x. rewrite (IH _ _ _ _ H x), In_keys_dict_set.
    pose proof (dict_get_keys _ _ _ Ei). split; [intros [->|]|]; auto.
Qed.

Lemma process_pages_keys (sec : string) (tgts : list string) (pages : dict string) :
  forall st st', process_pages sec tgts pages st = Some st' ->
  forall x, In x (keys (fst st')) <-> In x (keys (fst st)).
Proof.
  induction pages as [|[source md] ps IH]; intros [sp log] st' H; cbn [process_pages] in H.
  - injection H as <-. reflexivity.
  - destruct (process_page sec tgts (sp, log) (source, md)) as [st1|] eqn:E1; [|discriminate].
    intro x. rewrite (IH _ _ H x). unfold process_page in E1.
    destruct (place_page sec source md tgts false sp) as [[sp1 f]|] eqn:Ep; [|discriminate].
    injection E1 as <-. exact (place_page_keys _ _ _ _ _ _ _ _ Ep x).
Qed.

Lemma process_repos_keys (rm : dict repo_desc) (ml : dict (dict string)) :
  forall st st', process_repos rm ml st = Some st' ->
  forall x, In x (keys (fst st')) <->
            In x (keys (fst st)) \/
            exists repo mds desc, In (repo, mds) ml /\ dict_get rm repo = Some desc /\ sitesection desc = x.
Proof.
  induction ml as [|[repo mds] es IH]; intros st st' H; cbn [process_repos] in H.
  - injection H as <-. intro x. split; [tauto|]. intros [H|[? [? [? [[] _]]]]]. exact H.
  - destruct (process_repo rm st (repo, mds)) as [st1|] eqn:E1; [|discriminate].
    intro x. rewrite (IH _ _ H x). unfold process_repo in E1.
    destruct (dict_get rm repo) as [desc|] eqn:Ed; [|discriminate].
    rewrite (process_pages_keys _ _ _ _ _ E1 x). cbn [fst]. rewrite In_keys_dict_set.
    split.
    + intros [[->|Hx]|[r [m [d [Hin [Hd Hs]]]]]].
      * right. exists repo, mds, desc. split; [left; reflexivity|auto].
      * left; exact Hx.
      * right. exists r, m, d. split; [right; exact Hin|auto].
    + intros [Hx|[r [m [d [[E|Hin] [Hd Hs]]]]]].
      * left; right; exact Hx.
      * injection E as -> ->. rewrite Ed in Hd. injection Hd as <-. left; left; symmetry; exact Hs.
      * right. exists r, m, d. auto.
Qed.

(** The sections of the SitePages built by [build_site_structure] are
    exactly the site sections of the repositories of the input: a
    repository yields its section even when none of its pages matched a
    target, and no other section appears. *)
Theorem site_sections_of_repos (ml : dict (dict string)) (rm : dict repo_desc) (sp : sitepages) (log : list err) :
  build_site_structure ml rm = Some (sp, log) ->
  forall section, In section (keys sp) <->
  exists repo mds desc, In (repo, mds) ml /\ dict_get rm repo = Some desc /\ sitesection desc = section.
Proof.
  intros H section. rewrite (process_repos_keys _ _ _ _ H section). cbn [fst keys map].
  split; [intros [[]|E]; exact E|intro E; right; exact E].
Qed.

Lemma site_sections_of_repos_witness :
  let ml := [("CCM", [("/src/CCM/README.pod", "x")])] in
  let rm := [("CCM", {| sitesection := "CCM"; targets := ["EDG/WP4/CCM/"] |})] in
  build_site_structure ml rm = Some ([("CCM", [])], [("/src/CCM/README.pod", ["EDG/WP4/CCM/"])])
  /\ (In "CCM" (keys [("CCM", @nil (string * string))]) <->
      exists repo mds desc, In (repo, mds) ml /\ dict_get rm repo = Some desc /\ sitesection desc = "CCM").
Proof.
  intros ml rm.
  assert (H : build_site_structure ml rm = Some ([("CCM", [])], [("/src/CCM/README.pod", ["EDG/WP4/CCM/"])]))
    by (vm_compute; reflexivity).
  split; [exact H|]. exact (site_sections_of_repos ml rm _ _ H "CCM").
Defined.

Lemma process_repos_none (rm : dict repo_desc) (e : string * dict string) :
  (forall st, process_repo rm st e = None) ->
  forall ml st, In e ml -> process_repos rm ml st = None.
Proof.
  intros He. induction ml as [|e' es IH]; intros st Hin; [destruct Hin|].
  cbn [process_repos]. destruct Hin as [<-|Hin]; [rewrite He; reflexivity|].
  destruct (process_repo rm st e'); [apply IH; exact Hin|reflexivity].
Qed.

Lemma process_pages_none (sec : string) (tgts : list string) (p : string * string) :
  (forall st, process_page sec tgts st p = None) ->
  forall pages st, In p pages -> process_pages sec tgts pages st = None.
Proof.
  intros Hp. induction pages as [|p' ps IH]; intros st Hin; [destruct Hin|].
  cbn [process_pages]. destruct Hin as [<-|Hin]; [rewrite Hp; reflexivity|].
  destruct (process_page sec tgts st p'); [apply IH; exact Hin|reflexivity].
Qed.

(** [repository_map[repo]] raises [KeyError]: when some repository of the
    input has no entry in the repository map, [build_site_structure]
    raises. *)
Theorem site_structure_missing_repo (ml : dict (dict string)) (rm : dict repo_desc) (repo : string) (mds : dict string) :
  In (repo, mds) ml -> dict_get rm repo = None -> build_site_structure ml rm = None.
Proof.
  intros Hin Hr. unfold build_site_structure. apply (process_repos_none rm (repo, mds)); [|exact Hin].
  intro st. unfold process_repo. rewrite Hr. reflexivity.
Qed.

Lemma site_structure_missing_repo_witness :
  let rm := [("CCM", {| sitesection := "CCM"; targets := ["EDG/WP4/CCM/"] |})] in
  dict_get rm "configuration-modules-core" = None /\ build_site_structure test_markdown rm = None.
Proof.
  intro rm. split; [reflexivity|].
  apply (site_structure_missing_repo _ _ "configuration-modules-core"
           (snd (nth 1 test_markdown ("", [])))); [simpl; auto|reflexivity].
Defined.

(** An empty target string: [target in source] holds and
    [source.split(target)] raises [ValueError].  When a repository of the
    input has "" among its targets and one of its pages matches none of the
    targets before it, [build_site_structure] raises. *)
Theorem site_structure_empty_target (ml : dict (dict string)) (rm : dict repo_desc) (repo : string)
    (mds : dict string) (desc : repo_desc) (pre post : list string) (source md : string) :
  In (repo, mds) ml -> dict_get rm repo = Some desc -> targets desc = pre ++ "" :: post ->
  In (source, md) mds -> Forall (fun t => str_contains t source = false) pre ->
  build_site_structure ml rm = None.
Proof.
  intros Hin Hd Ht Hs Hpre. unfold build_site_structure.
  apply (process_repos_none rm (repo, mds)); [|exact Hin].
  intros [sp log]. unfold process_repo. rewrite Hd.
  apply (process_pages_none _ _ (source, md)); [|exact Hs].
  intros [sp' log']. unfold process_page. rewrite Ht, place_page_skip by exact Hpre.
  cbn [place_page]. replace (str_contains "" source) with true by (destruct source; reflexivity).
  reflexivity.
Qed.

Lemma site_structure_empty_target_witness :
  let rm := [("CCM", {| sitesection := "CCM"; targets := ["/X/"; ""] |})] in
  In ("CCM", [("/src/a.pod", "x")]) [("CCM", [("/src/a.pod", "x")])]
  /\ build_site_structure [("CCM", [("/src/a.pod", "x")])] rm = None.
Proof.
  intro rm. split; [left; reflexivity|].
  apply (site_structure_empty_target _ rm "CCM" [("/src/a.pod", "x")] (snd (hd ("", {| sitesection := ""; targets := [] |}) rm))
           ["/X/"] [] "/src/a.pod" "x"); try reflexivity.
  - left; reflexivity.
  - left; reflexivity.
  - repeat constructor.
Defined.

(* ------------------------------------------------------------------ *)
(** ** make_interlinks: what it keeps *)

Lemma map_page_contents_shape (f : string -> string -> option string) (d : dict string) :
  forall d', map_page_contents f d = Some d' ->
  keys d' = keys d /\
  forall p c, dict_get d p = Some c -> exists c', dict_get d' p = Some c' /\ f p c = Some c'.
Proof.
  induction d as [|[p0 c0] ps IH]; intros d' H; cbn [map_page_contents] in H.
  - injection H as <-. split; [reflexivity|]. intros p c [=].
  - unfold obind in H. destruct (f p0 c0) as [c1|] eqn:Ef; [|discriminate].
    destruct (map_page_contents f ps) as [ps'|]; [|discriminate]. injection H as <-.
    destruct (IH _ eq_refl) as [Hk Hg]. split; [cbn; f_equal; exact Hk|].
    intros p c. cbn [dict_get]. destruct (String.eqb_spec p p0) as [->|].
    + intros [= <-]. exists c1. auto.
    + exact (Hg p c).
Qed.

Lemma map_pages_shape (f : string -> string -> option string) (sp : sitepages) :
  forall sp', map_pages f sp = Some sp' ->
  map (fun e => (fst e, keys (snd e))) sp' = map (fun e => (fst e, keys (snd e))) sp /\
  forall s d p c, dict_get sp s = Some d -> dict_get d p = Some c ->
  exists d' c', dict_get sp' s = Some d' /\ dict_get d' p = Some c' /\ f p c = Some c'.
Proof.
  induction sp as [|[s0 d0] rest IH]; intros sp' H; cbn [map_pages] in H.
  - injection H as <-. split; [reflexivity|]. intros s d p c [=].
  - unfold obind in H. destruct (map_page_contents f d0) as [d1|] eqn:Ed; [|discriminate].
    destruct (map_pages f rest) as [r1|]; [|discriminate]. injection H as <-.
    destruct (map_page_contents_shape f d0 d1 Ed) as [Hk Hg].
    destruct (IH _ eq_refl) as [Hm Hr]. split; [cbn [map fst snd]; rewrite Hk, Hm; reflexivity|].
    intros s d p c. cbn [dict_get]. destruct (String.eqb_spec s s0) as [->|].
    + intros [= <-] Hp. destruct (Hg p c Hp) as [c' [H1 H2]]. exists d1, c'. auto.
    + exact (Hr s d p c).
Qed.

(** [make_interlinks] never adds, removes or renames a section or a page:
    the result has the sections of its input, in the same order, each with
    the same page names. *)
Theorem make_interlinks_same_pages (sp sp' : sitepages) :
  make_interlinks sp = Some sp' ->
  map (fun e => (fst e, keys (snd e))) sp' = map (fun e => (fst e, keys (snd e))) sp.
Proof.
  rewrite make_interlinks_pagewise. intro H. exact (proj1 (map_pages_shape _ _ _ H)).
Qed.

Lemma make_interlinks_same_pages_witness :
  make_interlinks [("components-grid", [("fmonagent.md", "")]);
                   ("components", [("icinga.md", "I refer to `fmonagent`.")])]
  = Some [("components-grid", [("fmonagent.md", "")]);
          ("components", [("icinga.md", "I refer to [fmonagent](../components-grid/fmonagent.md).")])]
  /\ map (fun e => (fst e, keys (snd e)))
       [("components-grid", [("fmonagent.md", "")]);
        ("components", [("icinga.md", "I refer to [fmonagent](../components-grid/fmonagent.md).")])]
     = map (fun e => (fst e, keys (snd e)))
       [("components-grid", [("fmonagent.md", "")]);
        ("components", [("icinga.md", "I refer to `fmonagent`.")])].
Proof.
  assert (H : make_interlinks [("components-grid", [("fmonagent.md", "")]);
                               ("components", [("icinga.md", "I refer to `fmonagent`.")])]
              = Some [("components-grid", [("fmonagent.md", "")]);
                      ("components", [("icinga.md", "I refer to [fmonagent](../components-grid/fmonagent.md).")])])
    by (vm_compute; reflexivity).
  split; [exact H|exact (make_interlinks_same_pages _ _ H)].
Defined.

(* ------------------------------------------------------------------ *)
(** ** write_site: what it writes *)








Lemma path_eqb_cons (a b : string) (p q : path) :
  path_eqb (a :: p) (b :: q) = String.eqb a b && path_eqb p q.
Proof.
  apply Bool.eq_true_iff_eq. rewrite andb_true_iff, !path_eqb_true, String.eqb_eq.
  split; [intros [= -> ->]; auto|intros [-> ->]; reflexivity].
Qed.

Lemma path_eqb_nil_l (q : path) : path_eqb [] q = match q with [] => true | _ => false end.
Proof. destruct q; [reflexivity|]. apply Bool.not_true_iff_false. rewrite path_eqb_true. discriminate. Qed.

Lemma path_eqb_nil_r (p : path) : path_eqb p [] = match p with [] => true | _ => false end.
Proof. destruct p; [reflexivity|]. apply Bool.not_true_iff_false. rewrite path_eqb_true. discriminate. Qed.

Lemma is_dir_same_dirs (fs fs' : fsys) (p : path) : fs_dirs fs' = fs_dirs fs -> is_dir fs' p = is_dir fs p.
Proof. intro E. destruct p; [reflexivity|]. unfold is_dir. rewrite E. reflexivity. Qed.

Lemma ancestors_ok_write (fs fs' : fsys) (loc rr : path) (c : string) :
  ancestors_ok fs loc -> rr <> [] -> write_file fs (loc ++ rr) c = Some fs' -> ancestors_ok fs' loc.
Proof.
  intros A Hr H q t Eq. destruct (A q t Eq) as [Hd Hf].
  pose proof H as H'. rewrite write_file_ne in H' by (apply app_ne_r; exact Hr).
  destruct (_ && _); [|discriminate]. injection H' as <-. split.
  - rewrite <- Hd. apply is_dir_same_dirs. reflexivity.
  - rewrite is_file_content, file_content_written.
    destruct (path_eqb q (loc ++ rr)) eqn:E.
    + apply path_eqb_true in E. exfalso. exact (prefix_not_ext _ _ _ _ Hr Eq E).
    + rewrite is_file_content in Hf. exact Hf.
Qed.

Lemma ancestors_ok_add_dir (fs : fsys) (loc q : path) : ancestors_ok fs loc -> ancestors_ok (add_dir q fs) loc.
Proof.
  intros A q' t E. destruct (A q' t E) as [Hd Hf]. split; [apply is_dir_add_dir_mono; exact Hd|exact Hf].
Qed.

Lemma dict_get_notin_keys {V} (d : dict V) (k : string) : ~ In k (keys d) -> dict_get d k = None.
Proof. destruct (dict_get d k) eqn:E; [intro H; exfalso; exact (H (dict_get_keys _ _ _ E))|reflexivity]. Qed.

Lemma write_pages_tree (loc : path) (dd s : string) :
  forall pages fs (t : dict (list string)), NoDup (keys pages) -> ancestors_ok fs loc ->
  is_dir fs (loc ++ [dd; s]) = true -> (forall p, is_dir fs (loc ++ [dd; s; p]) = false) ->
  exists fs' t', write_pages s (loc ++ [dd; s]) pages (fs, t) = Some (fs', t') /\
    fs_dirs fs' = fs_dirs fs /\ ancestors_ok fs' loc /\
    forall r, file_content fs' (loc ++ r) =
      match r with
      | [d; s'; p] =>
          if String.eqb d dd && String.eqb s' s
          then match dict_get pages p with Some c => Some c | None => file_content fs (loc ++ r) end
          else file_content fs (loc ++ r)
      | _ => file_content fs (loc ++ r)
      end.
Proof.
  induction pages as [|[p c] ps IH]; intros fs t Hnd A Hs Hp.
  - exists fs, t. split; [reflexivity|]. split; [reflexivity|]. split; [exact A|].
    intro r. destruct r as [|d [|s' [|p' [|x r]]]]; try reflexivity.
    destruct (_ && _); reflexivity.
  - cbn [write_pages fst snd]. rewrite <- app_assoc. cbn [app].
    assert (W : write_file fs (loc ++ [dd; s; p]) c =
                Some {| fs_dirs := fs_dirs fs;
                        fs_files := (loc ++ [dd; s; p], c)
                                    :: filter (fun e => negb (path_eqb (fst e) (loc ++ [dd; s; p]))) (fs_files fs) |}).
    { rewrite write_file_ne by (apply app_ne_r; discriminate).
      rewrite removelast_app by discriminate. cbn [removelast]. rewrite Hs, Hp. reflexivity. }
    rewrite W.
    set (fs1 := {| fs_dirs := fs_dirs fs; fs_files := _ |}).
    inversion Hnd as [|? ? Hnotin Hnd']; subst.
    destruct (IH fs1 (dict_set t s (set_add (toc_get t s) p)) Hnd'
                (ancestors_ok_write _ _ _ [dd; s; p] _ A ltac:(discriminate) W)
                ltac:(rewrite (is_dir_same_dirs fs fs1) by reflexivity; exact Hs)
                ltac:(intro p'; rewrite (is_dir_same_dirs fs fs1) by reflexivity; apply Hp))
      as [fs' [t' [E [Hd [A' Hf]]]]].
    exists fs', t'. split; [exact E|]. split; [exact Hd|]. split; [exact A'|].
    intro r. rewrite Hf. unfold fs1. rewrite file_content_written, path_eqb_app_l.
    destruct r as [|d [|s' [|p' [|x r]]]]; rewrite ?path_eqb_cons, ?path_eqb_nil_l, ?path_eqb_nil_r;
      cbn [andb]; try (rewrite ?andb_false_r; reflexivity).
    destruct (String.eqb d dd), (String.eqb s' s); cbn [andb]; try reflexivity.
    cbn [dict_get]. destruct (String.eqb_spec p' p) as [->|].
    + rewrite (dict_get_notin_keys _ _ Hnotin). reflexivity.
    + reflexivity.
Qed.

Lemma dict_get_app {V} (a b : dict V) (k : string) :
  dict_get (a ++ b) k = match dict_get a k with Some v => Some v | None => dict_get b k end.
Proof.
  induction a as [|[k0 v0] a IH]; [reflexivity|]. cbn [app dict_get].
  destruct (String.eqb k k0); [reflexivity|exact IH].
Qed.

Lemma file_content_add_dir (fs : fsys) (q p : path) : file_content (add_dir q fs) p = file_content fs p.
Proof. reflexivity. Qed.

Lemma makedirs_two (fs : fsys) (loc : path) (dd s : string) :
  is_file fs (loc ++ [dd]) = false -> is_file fs (loc ++ [dd; s]) = false ->
  is_dir fs (loc ++ [dd; s]) = false ->
  makedirs_go loc [dd; s] fs =
  Some (add_dir (loc ++ [dd; s]) (if is_dir fs (loc ++ [dd]) then fs else add_dir (loc ++ [dd]) fs)).
Proof.
  intros F1 F2 D2. cbn [makedirs_go]. rewrite <- app_assoc. cbn [app]. rewrite F1.
  assert (Hne : path_eqb (loc ++ [dd; s]) (loc ++ [dd]) = false).
  { rewrite path_eqb_app_l, path_eqb_cons, path_eqb_nil_r. apply andb_false_r. }
  destruct (is_dir fs (loc ++ [dd])).
  - rewrite F2, D2. reflexivity.
  - change (is_file (add_dir (loc ++ [dd]) fs) (loc ++ [dd; s])) with (is_file fs (loc ++ [dd; s])).
    rewrite F2, is_dir_add_dir by (apply app_ne_r; discriminate). rewrite Hne, D2. reflexivity.
Qed.

(** The state after some sections: the expected directories and page files. *)
Lemma write_sections_tree (loc : path) (dd : string) :
  forall rest done fs (t : list (string * list string)),
  NoDup (keys (done ++ rest)) -> Forall (fun e => NoDup (keys (snd e))) rest ->
  ancestors_ok fs loc ->
  (forall r, r <> [] -> is_dir fs (loc ++ r) = expected_dir dd done r) ->
  (forall r, file_content fs (loc ++ r) = expected_page dd done r) ->
  exists fs' t', write_sections loc dd rest (fs, t) = Some (fs', t') /\
    ancestors_ok fs' loc /\
    (forall r, r <> [] -> is_dir fs' (loc ++ r) = expected_dir dd (done ++ rest) r) /\
    (forall r, file_content fs' (loc ++ r) = expected_page dd (done ++ rest) r).
Proof.
  induction rest as [|[s pages] rest IH]; intros done fs t Hnd Hpg A D F.
  - exists fs, t. rewrite app_nil_r. auto.
  - assert (Hs : ~ In s (keys done)).
    { unfold keys in Hnd. rewrite map_app in Hnd. cbn [map fst] in Hnd.
      apply NoDup_remove_2 in Hnd. intro Hin. apply Hnd, in_or_app. left; exact Hin. }
    inversion Hpg as [|? ? Hpages Hpg']; subst.
    assert (Es : existsb (String.eqb s) (keys done) = false).
    { apply Bool.not_true_iff_false. rewrite existsb_exists. intros [x [Hx Ex]].
      apply String.eqb_eq in Ex. subst x. exact (Hs Hx). }
    assert (Fn : forall r, (match r with [_; _; _] => False | _ => True end) -> is_file fs (loc ++ r) = false).
    { intros r Hr. rewrite is_file_content, F. destruct r as [|? [|? [|? [|? ?]]]]; try reflexivity. destruct Hr. }
    assert (Dds : is_dir fs (loc ++ [dd; s]) = false).
    { rewrite D by discriminate. cbn [expected_dir]. rewrite String.eqb_refl, Es. reflexivity. }
    cbn [write_sections fst snd].
    assert (Pe : path_exists fs (loc ++ [dd; s]) = false).
    { unfold path_exists. rewrite Dds, (Fn [dd; s] I). reflexivity. }
    rewrite Pe, (makedirs_under fs loc [dd; s] A Pe), app_nil_r.
    rewrite (makedirs_two fs loc dd s (Fn [dd] I) (Fn [dd; s] I) Dds).
    set (fs1 := if is_dir fs (loc ++ [dd]) then fs else add_dir (loc ++ [dd]) fs).
    set (fs2 := add_dir (loc ++ [dd; s]) fs1).
    assert (A2 : ancestors_ok fs2 loc).
    { unfold fs2, fs1. apply ancestors_ok_add_dir. destruct (is_dir fs (loc ++ [dd])); [exact A|].
      apply ancestors_ok_add_dir; exact A. }
    assert (D1 : forall r, r <> [] -> is_dir fs1 (loc ++ r) =
                 (if is_dir fs (loc ++ [dd]) then false else path_eqb r [dd]) || expected_dir dd done r).
    { intros r Hr. unfold fs1. destruct (is_dir fs (loc ++ [dd])); [apply D; exact Hr|].
      rewrite is_dir_add_dir by (apply app_ne_r; exact Hr). rewrite path_eqb_app_l, D by exact Hr. reflexivity. }
    assert (D2 : forall r, r <> [] -> is_dir fs2 (loc ++ r) = path_eqb r [dd; s] || is_dir fs1 (loc ++ r)).
    { intros r Hr. unfold fs2. rewrite is_dir_add_dir by (apply app_ne_r; exact Hr). rewrite path_eqb_app_l. reflexivity. }
    destruct (write_pages_tree loc dd s pages fs2 (dict_set t s []) Hpages A2
                ltac:(rewrite D2 by discriminate; rewrite path_eqb_refl; reflexivity)
                ltac:(intro p; rewrite D2, D1 by discriminate;
                      rewrite !path_eqb_cons, !path_eqb_nil_r, !andb_false_r;
                      destruct (is_dir fs (loc ++ [dd])); reflexivity))
      as [fs3 [t3 [Ew [Hd3 [A3 F3]]]]].
    rewrite Ew.
    destruct (IH (done ++ [(s, pages)]) fs3 (dict_set t3 s (sort_lower (toc_get t3 s))))
      as [fs' [t' [E' [A' [D' F']]]]].
    + rewrite <- app_assoc. exact Hnd.
    + exact Hpg'.
    + exact A3.
    + intros r Hr. rewrite (is_dir_same_dirs fs2 fs3) by exact Hd3. rewrite D2, D1 by exact Hr.
      assert (Dd : is_dir fs (loc ++ [dd]) = negb (Nat.eqb (length done) 0)).
      { rewrite D by discriminate. cbn [expected_dir]. rewrite String.eqb_refl. reflexivity. }
      rewrite Dd. destruct r as [|d [|s' [|x r]]]; [congruence| | |];
        unfold expected_dir, keys; rewrite ?map_app, ?existsb_app, ?length_app;
        cbn [map fst existsb length];
        rewrite ?path_eqb_cons, ?path_eqb_nil_l, ?path_eqb_nil_r, ?andb_true_r, ?andb_false_r.
      * destruct (length done); cbn; destruct (String.eqb d dd); reflexivity.
      * destruct (negb (Nat.eqb (length done) 0)); cbn [negb orb andb];
          destruct (String.eqb d dd), (String.eqb s' s), (existsb (String.eqb s') (map fst done)); reflexivity.
      * destruct (negb (Nat.eqb (length done) 0)); reflexivity.
    + intro r. rewrite F3. unfold fs2. rewrite !file_content_add_dir.
      assert (F1 : file_content fs1 (loc ++ r) = file_content fs (loc ++ r))
        by (unfold fs1; destruct (is_dir fs (loc ++ [dd])); reflexivity).
      unfold expected_page, site_lookup in *. rewrite F1, F.
      destruct r as [|d [|s' [|p [|x r]]]]; try reflexivity.
      rewrite dict_get_app. cbn [dict_get].
      destruct (String.eqb d dd); cbn [andb]; [|reflexivity].
      destruct (String.eqb_spec s' s) as [->|Hne].
      * rewrite (dict_get_notin_keys _ _ Hs).
        destruct (dict_get pages p); reflexivity.
      * destruct (dict_get done s'); reflexivity.
    + exists fs', t'. rewrite <- app_assoc in D', F'. cbn [app] in D', F'.
      split; [exact E'|]. auto.
Qed.

(** [write_site] run into an existing, empty output directory [location]
    on sitepages without repeated section or page names, whose docs
    directory, sections and pages have plain names, the docs directory
    being other than [mkdocs.yml]: when it returns, the tree below
    [location] is exactly [docsdir] (when there is a section), one
    directory [docsdir/section] per section, one file
    [docsdir/section/page] holding each page's content, and [mkdocs.yml]
    holding the rendered table of contents. *)
Theorem write_site_tree (render : toc -> option string) (fs fs' : fsys) (loc : path)
    (docsdir : string) (sp : sitepages) (t : toc) :
  plain_site docsdir sp -> empty_output_dir fs loc ->
  NoDup (keys sp) -> Forall (fun e => NoDup (keys (snd e))) sp ->
  docsdir <> "mkdocs.yml" ->
  write_site render fs loc docsdir sp = Some (fs', t) ->
  exists tocfile, render t = Some tocfile
    /\ (forall r, file_content fs' (loc ++ r) = expected_file docsdir sp tocfile r)
    /\ (forall r, r <> [] -> is_dir fs' (loc ++ r) = expected_dir docsdir sp r).
Proof.
  intros _ [A [D0 F0]] Hnd Hpg Hdd Hw.
  destruct (write_sections_tree loc docsdir sp [] fs [] Hnd Hpg A
              ltac:(intros r Hr; rewrite D0 by exact Hr;
                    destruct r as [|? [|? [|? ?]]]; cbn; rewrite ?andb_false_r; reflexivity)
              ltac:(intro r; rewrite F0; destruct r as [|? [|? [|? [|? ?]]]]; cbn;
                    try reflexivity; destruct (String.eqb _ _); reflexivity))
    as [fs1 [t1 [E [A1 [D1 F1]]]]].
  cbn [app] in D1, F1. unfold write_site, write_toc in Hw. rewrite E in Hw.
  destruct (render t1) as [tocfile|] eqn:R; [|discriminate].
  rewrite write_file_ne in Hw by (apply app_ne_r; discriminate).
  rewrite removelast_last, D1 in Hw by discriminate.
  rewrite (proj1 (A1 loc [] (app_nil_r loc))) in Hw.
  assert (Em : String.eqb "mkdocs.yml" docsdir = false)
    by (apply String.eqb_neq; intro H; apply Hdd; symmetry; exact H).
  cbn [expected_dir] in Hw. rewrite Em in Hw. cbn [andb negb] in Hw.
  injection Hw as <- <-.
  exists tocfile. split; [exact R|split].
  - intro r. rewrite file_content_written, path_eqb_app_l. unfold expected_file.
    destruct (path_eqb r ["mkdocs.yml"]); [reflexivity|apply F1].
  - intros r Hr. rewrite (is_dir_same_dirs fs1) by reflexivity. exact (D1 r Hr).
Qed.

Lemma write_site_tree_witness :
  let fs := {| fs_dirs := [["o"]]; fs_files := [] |} in
  let sp := [("CCM", [("fetch::download.md", "# NAME")]);
             ("components", [("fmonagent.md", "Hello"); ("profile::functions.md", "Fns")])] in
  plain_site "docs" sp /\ empty_output_dir fs ["o"] /\ NoDup (keys sp)
  /\ Forall (fun e => NoDup (keys (snd e))) sp /\ "docs" <> "mkdocs.yml"
  /\ exists fs' t, write_site (fun _ => Some "nav") fs ["o"] "docs" sp = Some (fs', t)
     /\ exists tocfile, (fun _ : toc => Some "nav") t = Some tocfile
        /\ (forall r, file_content fs' (["o"] ++ r) = expected_file "docs" sp tocfile r)
        /\ (forall r, r <> [] -> is_dir fs' (["o"] ++ r) = expected_dir "docs" sp r).
Proof.
  intros fs sp.
  assert (Pl : plain_site "docs" sp) by (split; [reflexivity|repeat constructor]).
  assert (E1 : empty_output_dir fs ["o"]).
  { apply empty_output_dir_single. intros e []. }
  assert (N : NoDup (keys sp)) by (repeat constructor; cbn; intuition discriminate).
  assert (P : Forall (fun e => NoDup (keys (snd e))) sp)
    by (repeat constructor; cbn; intuition discriminate).
  assert (Dd : "docs" <> "mkdocs.yml") by discriminate.
  split; [exact Pl|split; [exact E1|split; [exact N|split; [exact P|split; [exact Dd|]]]]].
  destruct (write_site (fun _ => Some "nav") fs ["o"] "docs" sp) as [[fs' t]|] eqn:E;
    [|vm_compute in E; discriminate].
  exists fs', t. split; [reflexivity|].
  exact (write_site_tree (fun _ => Some "nav") fs fs' ["o"] "docs" sp t Pl E1 N P Dd E).
Defined.

(* ------------------------------------------------------------------ *)
(** ** check_input and which *)

Lemma resolve_go_oserror (pr : proc) (fs : fsys) (comps : list string) :
  forall cur e, resolve_go pr fs cur comps = Raise e -> exists n, e = OSError n.
Proof.
  induction comps as [|c rest IH]; intros cur e H; cbn [resolve_go] in H; [discriminate|].
  repeat match type of H with context [if ?b then _ else _] => destruct b end;
    try (injection H as <-; eexists; reflexivity); eauto.
Qed.

Lemma stat_raise (pr : proc) (fs : fsys) (s : string) (e : exn) :
  stat pr fs s = Raise e -> (e = TypeError /\ str_contains nul s = true) \/ exists n, e = OSError n.
Proof.
  unfold stat. destruct (str_contains nul s) eqn:N.
  - intro H. injection H as <-. left; auto.
  - intro H. right. destruct (String.eqb s ""); [injection H as <-; eexists; reflexivity|].
    destruct (Nat.leb 4096 (String.length s)); [injection H as <-; eexists; reflexivity|].
    exact (resolve_go_oserror _ _ _ _ _ H).
Qed.

Lemma exists_str_raise (pr : proc) (fs : fsys) (s : string) (e : exn) :
  exists_str pr fs s = Raise e -> e = TypeError /\ str_contains nul s = true.
Proof.
  unfold exists_str. destruct (stat pr fs s) as [p|e'] eqn:E; [discriminate|].
  destruct (stat_raise _ _ _ _ E) as [[-> N]|[n ->]]; [|discriminate].
  intro H. injection H as <-. auto.
Qed.

Lemma exists_str_nul_free (pr : proc) (fs : fsys) (s : string) :
  str_contains nul s = false -> exists b, exists_str pr fs s = Ret b.
Proof.
  intro N. destruct (exists_str pr fs s) as [b|e] eqn:E; [eexists; reflexivity|].
  apply exists_str_raise in E as [_ N']. congruence.
Qed.

(** The only exceptions [check_input] lets through: the [TypeError] of
    [os.path.exists] for a location holding a NUL byte, and, once both
    locations exist, the [OSError] of [os.listdir] on an output location
    that is not a directory (ENOTDIR) or that it may not read (EACCES). *)
Theorem check_input_raise (pr : proc) (fs : fsys) (sourceloc outputloc : string) (e : exn) :
  snd (check_input pr fs sourceloc outputloc) = Raise e ->
  (e = TypeError /\ (str_contains nul sourceloc = true \/ str_contains nul outputloc = true))
  \/ (exists_str pr fs sourceloc = Ret true /\
      exists p, stat pr fs outputloc = Ret p /\
        ((e = OSError "ENOTDIR" /\ is_dir fs p = false)
         \/ (e = OSError "EACCES" /\ is_dir fs p = true /\ readable pr p = false))).
Proof.
  unfold check_input.
  destruct (String.eqb sourceloc ""); [discriminate|].
  destruct (String.eqb outputloc ""); [discriminate|].
  destruct (exists_str pr fs sourceloc) as [[|]|e1] eqn:Es.
  - destruct (exists_str pr fs outputloc) as [[|]|e2] eqn:Eo.
    + destruct (proj1 (exists_str_stat pr fs outputloc) Eo) as [p Hp].
      unfold listdir. rewrite Hp. intro H. right. split; [reflexivity|]. exists p. split; [reflexivity|].
      destruct (is_dir fs p); cbn [negb] in H.
      * destruct (readable pr p); cbn [negb snd] in H.
        -- destruct (nodup _ _); discriminate.
        -- injection H as <-. right; auto.
      * injection H as <-. left; auto.
    + discriminate.
    + cbn [snd]. intro H. injection H as <-. apply exists_str_raise in Eo as [-> N]. left; auto.
  - discriminate.
  - cbn [snd]. intro H. injection H as <-. apply exists_str_raise in Es as [-> N]. left; auto.
Qed.

Lemma check_input_raise_witness :
  snd (check_input {| proc_cwd := []; proc_nosearch := []; proc_noread := [["out"]] |}
         {| fs_dirs := [["out"]]; fs_files := [(["src"], "x")] |} "/src" "/out")
    = Raise (OSError "EACCES")
  /\ ((OSError "EACCES" = TypeError /\ (str_contains nul "/src" = true \/ str_contains nul "/out" = true))
      \/ (exists_str {| proc_cwd := []; proc_nosearch := []; proc_noread := [["out"]] |}
            {| fs_dirs := [["out"]]; fs_files := [(["src"], "x")] |} "/src" = Ret true /\
          exists p, stat {| proc_cwd := []; proc_nosearch := []; proc_noread := [["out"]] |}
                      {| fs_dirs := [["out"]]; fs_files := [(["src"], "x")] |} "/out" = Ret p /\
            ((OSError "EACCES" = OSError "ENOTDIR"
              /\ is_dir {| fs_dirs := [["out"]]; fs_files := [(["src"], "x")] |} p = false)
             \/ (OSError "EACCES" = OSError "EACCES"
                 /\ is_dir {| fs_dirs := [["out"]]; fs_files := [(["src"], "x")] |} p = true
                 /\ readable {| proc_cwd := []; proc_nosearch := []; proc_noread := [["out"]] |} p = false)))).
Proof.
  assert (H : snd (check_input {| proc_cwd := []; proc_nosearch := []; proc_noread := [["out"]] |}
                {| fs_dirs := [["out"]]; fs_files := [(["src"], "x")] |} "/src" "/out")
              = Raise (OSError "EACCES")) by (vm_compute; reflexivity).
  split; [exact H|]. exact (check_input_raise _ _ "/src" "/out" _ H).
Defined.

Lemma strip_prefix_some (p q r : path) : strip_prefix p q = Some r -> q = p ++ r.
Proof.
  revert q. induction p as [|a p IH]; intros [|b q] H; cbn in H; try discriminate.
  - injection H as <-. reflexivity.
  - injection H as <-. reflexivity.
  - destruct (String.eqb_spec a b); [subst b|discriminate]. cbn. f_equal. exact (IH q H).
Qed.

Lemma flat_map_all_nil {A B} (f : A -> list B) (l : list A) :
  (forall x, In x l -> f x = []) -> flat_map f l = [].
Proof.
  induction l as [|x l IH]; intro H; [reflexivity|]. cbn [flat_map].
  rewrite (H x (or_introl eq_refl)), IH by (intros y Hy; exact (H y (or_intror Hy))). reflexivity.
Qed.

Lemma child_name_some (p q : path) (c : string) : child_name p q = Some c -> q = p ++ [c].
Proof.
  unfold child_name. destruct (strip_prefix p q) as [[|x [|y r]]|] eqn:E; try discriminate.
  intro H. injection H as <-. exact (strip_prefix_some _ _ _ E).
Qed.

(** [check_input] accepts what [write_site] expects: it returns [True],
    logging only its first message, when the source location exists and
    the output location names an existing, empty directory it may read. *)
Theorem check_input_empty_output (pr : proc) (fs : fsys) (sourceloc outputloc : string) (p : path) :
  exists_str pr fs sourceloc = Ret true -> stat pr fs outputloc = Ret p ->
  empty_output_dir fs p -> readable pr p = true ->
  check_input pr fs sourceloc outputloc = (["Checking if the given paths exist."], Ret true).
Proof.
  intros Hs Ho [A [D F]] Hr.
  destruct (proj1 (exists_str_stat pr fs sourceloc) Hs) as [ps Hps].
  assert (Hd : is_dir fs p = true) by exact (proj1 (A _ [] (app_nil_r _))).
  unfold check_input. rewrite (stat_nonempty _ _ _ _ Hps), (stat_nonempty _ _ _ _ Ho), Hs.
  unfold exists_str, listdir. rewrite Ho, Hd, Hr. cbn [negb].
  assert (Hnil : flat_map (fun q => match child_name p q with Some c => [c] | None => [] end)
                   (fs_dirs fs ++ map fst (fs_files fs)) = []).
  { apply flat_map_all_nil. intros q Hq. destruct (child_name p q) as [c|] eqn:Ec; [|reflexivity].
    exfalso. apply child_name_some in Ec. subst q. apply in_app_or in Hq as [Hq|Hq].
    - pose proof (D [c] ltac:(discriminate)) as Dc. rewrite is_dir_ne in Dc by (apply app_ne_r; discriminate).
      apply Bool.not_true_iff_false in Dc. apply Dc, existsb_exists. exists (p ++ [c]). split; [exact Hq|apply path_eqb_refl].
    - pose proof (F [c]) as Fc. apply in_map_iff in Hq as [[q' d] [Hq' Hin]]. cbn [fst] in Hq'. subst q'.
      unfold file_content in Fc. destruct (find _ (fs_files fs)) eqn:Ef; [discriminate|].
      pose proof (find_none _ _ Ef _ Hin) as Hn. cbn [fst] in Hn. rewrite path_eqb_refl in Hn. discriminate. }
  rewrite Hnil. reflexivity.
Qed.

Lemma check_input_empty_output_witness :
  exists_str {| proc_cwd := ["home"]; proc_nosearch := []; proc_noread := [] |}
    {| fs_dirs := [["home"]; ["out"]]; fs_files := [(["home"; "src"], "x")] |} "src" = Ret true
  /\ stat {| proc_cwd := ["home"]; proc_nosearch := []; proc_noread := [] |}
       {| fs_dirs := [["home"]; ["out"]]; fs_files := [(["home"; "src"], "x")] |} "../out/" = Ret ["out"]
  /\ empty_output_dir {| fs_dirs := [["home"]; ["out"]]; fs_files := [(["home"; "src"], "x")] |} ["out"]
  /\ readable {| proc_cwd := ["home"]; proc_nosearch := []; proc_noread := [] |} ["out"] = true
  /\ check_input {| proc_cwd := ["home"]; proc_nosearch := []; proc_noread := [] |}
       {| fs_dirs := [["home"]; ["out"]]; fs_files := [(["home"; "src"], "x")] |} "src" "../out/"
     = (["Checking if the given paths exist."], Ret true).
Proof.
  assert (E : empty_output_dir {| fs_dirs := [["home"]; ["out"]]; fs_files := [(["home"; "src"], "x")] |} ["out"]).
  { split; [|split].
    - intros q t Eq. destruct q as [|x q]; [split; reflexivity|].
      destruct q; [|destruct t; discriminate]. injection Eq as Ex _. subst x. split; reflexivity.
    - intros r Hr. rewrite is_dir_ne by discriminate. cbn [app fs_dirs existsb].
      rewrite !path_eqb_cons, !path_eqb_nil_r. destruct r; [congruence|].
      destruct (String.eqb "out" "home"); reflexivity.
    - intro r. reflexivity. }
  assert (Hs : exists_str {| proc_cwd := ["home"]; proc_nosearch := []; proc_noread := [] |}
    {| fs_dirs := [["home"]; ["out"]]; fs_files := [(["home"; "src"], "x")] |} "src" = Ret true)
    by (vm_compute; reflexivity).
  assert (Ho : stat {| proc_cwd := ["home"]; proc_nosearch := []; proc_noread := [] |}
       {| fs_dirs := [["home"]; ["out"]]; fs_files := [(["home"; "src"], "x")] |} "../out/" = Ret ["out"])
    by (vm_compute; reflexivity).
  assert (Hr : readable {| proc_cwd := ["home"]; proc_nosearch := []; proc_noread := [] |} ["out"] = true)
    by reflexivity.
  split; [exact Hs|split; [exact Ho|split; [exact E|split; [exact Hr|]]]].
  exact (check_input_empty_output _ _ "src" "../out/" _ Hs Ho E Hr).
Defined.

Lemma nul_free_cons (c : ascii) (s : string) :
  str_contains nul (String c s) = false ->
  str_contains nul (String c "") = false /\ str_contains nul s = false.
Proof.
  unfold nul. cbn [str_contains]. rewrite !prefix_char.
  destruct (ascii_dec "000" c); [discriminate|]. cbn [orb]. intro H. split; [reflexivity|exact H].
Qed.

Lemma split_go_nul_free (sep : string) (s : string) :
  str_contains nul s = false ->
  forall k cur d, str_contains nul cur = false -> In d (split_go sep s k cur) -> str_contains nul d = false.
Proof.
  induction s as [|c s IH]; intros Hs k cur d Hc Hd.
  - destruct Hd as [<-|[]]. exact Hc.
  - apply nul_free_cons in Hs as [Hc1 Hs]. destruct k as [|k]; cbn [split_go] in Hd.
    + destruct (prefix sep (String c s)).
      * destruct Hd as [<-|Hd]; [exact Hc|]. exact (IH Hs _ "" d eq_refl Hd).
      * refine (IH Hs 0 _ d _ Hd). unfold nul in *. rewrite contains_char_app, Hc, Hc1. reflexivity.
    + exact (IH Hs k cur d Hc Hd).
Qed.

Lemma posix_join_nul_free (a b : string) :
  str_contains nul a = false -> str_contains nul b = false -> str_contains nul (posix_join a b) = false.
Proof.
  intros Ha Hb. unfold posix_join, nul.
  destruct (prefix "/" b); [exact Hb|].
  destruct (String.eqb a "" || ends_slash a); rewrite !contains_char_app.
  - unfold nul in Ha, Hb. rewrite Ha, Hb. reflexivity.
  - unfold nul in Ha, Hb. rewrite Ha, Hb. reflexivity.
Qed.

Lemma which_fold (pr : proc) (fs : fsys) (p command : string) :
  which pr fs (Some p) command = fold_left (which_step pr fs command) (split_go ":" p 0 "") (Ret false).
Proof. reflexivity. Qed.

Lemma which_step_found (pr : proc) (fs : fsys) (command : string) (dirs : list string) :
  Forall (fun d => exists b, exists_str pr fs (posix_join d command) = Ret b) dirs ->
  forall f, fold_left (which_step pr fs command) dirs (Ret f) =
  Ret (f || existsb (fun d => match exists_str pr fs (posix_join d command) with Ret b => b | Raise _ => false end) dirs).
Proof.
  induction 1 as [|d dirs [b Hb] _ IH]; intro f; cbn [fold_left existsb].
  - rewrite orb_false_r. reflexivity.
  - replace (which_step pr fs command (Ret f) d) with (Ret (f || b : bool))
      by (unfold which_step; rewrite Hb; destruct b, f; reflexivity).
    rewrite IH, Hb, orb_assoc. reflexivity.
Qed.

(** With [PATH] set and no NUL byte in it or in the command, [which] does
    not raise, and it returns [True] exactly when [os.path.exists] holds
    for [os.path.join(direct, command)] for some entry [direct] of [PATH]
    split at ":"; a later entry never resets an earlier match. *)
Theorem which_any (pr : proc) (fs : fsys) (p command : string) :
  str_contains nul p = false -> str_contains nul command = false ->
  exists b, which pr fs (Some p) command = Ret b /\
    (b = true <-> exists direct, In direct (split_go ":" p 0 "") /\
                   exists_str pr fs (posix_join direct command) = Ret true).
Proof.
  intros Hp Hc.
  assert (Hall : Forall (fun d => exists b, exists_str pr fs (posix_join d command) = Ret b)
                        (split_go ":" p 0 "")).
  { apply Forall_forall. intros d Hd. apply exists_str_nul_free, posix_join_nul_free; [|exact Hc].
    exact (split_go_nul_free ":" p Hp 0 "" d eq_refl Hd). }
  rewrite which_fold, (which_step_found _ _ _ _ Hall false). cbn [orb].
  eexists. split; [reflexivity|]. rewrite existsb_exists. split.
  - intros [d [Hd Hb]]. exists d. split; [exact Hd|].
    destruct (exists_str pr fs (posix_join d command)) as [[|]|]; congruence.
  - intros [d [Hd Hb]]. exists d. split; [exact Hd|]. rewrite Hb. reflexivity.
Qed.

Lemma which_any_witness :
  str_contains nul "/usr/bin:/bin" = false /\ str_contains nul "mvn" = false /\
  exists b, which {| proc_cwd := []; proc_nosearch := []; proc_noread := [] |}
              {| fs_dirs := [["bin"]; ["usr"]; ["usr"; "bin"]]; fs_files := [(["bin"; "mvn"], "")] |}
              (Some "/usr/bin:/bin") "mvn" = Ret b /\
    (b = true <-> exists direct, In direct (split_go ":" "/usr/bin:/bin" 0 "") /\
       exists_str {| proc_cwd := []; proc_nosearch := []; proc_noread := [] |}
         {| fs_dirs := [["bin"]; ["usr"]; ["usr"; "bin"]]; fs_files := [(["bin"; "mvn"], "")] |}
         (posix_join direct "mvn") = Ret true).
Proof.
  assert (H1 : str_contains nul "/usr/bin:/bin" = false) by reflexivity.
  assert (H2 : str_contains nul "mvn" = false) by reflexivity.
  split; [exact H1|split; [exact H2|]]. exact (which_any _ _ _ _ H1 H2).
Defined.

Lemma which_step_const (pr : proc) (fs : fsys) (command : string) (dirs : list string) :
  prefix "/" command = true ->
  forall acc, (acc = exists_str pr fs command \/ acc = Ret false) -> dirs <> [] ->
  fold_left (which_step pr fs command) dirs acc = exists_str pr fs command.
Proof.
  intro Hc. induction dirs as [|d dirs IH]; intros acc Hacc Hne; [congruence|].
  cbn [fold_left].
  assert (Hs : which_step pr fs command acc d = exists_str pr fs command).
  { unfold which_step, posix_join. rewrite Hc.
    destruct Hacc as [->| ->]; destruct (exists_str pr fs command) as [[|]|]; reflexivity. }
  rewrite Hs. destruct dirs as [|d' dirs]; [reflexivity|].
  apply IH; [left; reflexivity|discriminate].
Qed.

(** With [PATH] set, an absolute command is looked up as it is, whatever
    [PATH] holds: [which] gives what [os.path.exists(command)] gives,
    [TypeError] included. *)
Theorem which_absolute (pr : proc) (fs : fsys) (p command : string) :
  prefix "/" command = true -> which pr fs (Some p) command = exists_str pr fs command.
Proof.
  intro Hc. rewrite which_fold. apply which_step_const; [exact Hc|right; reflexivity|].
  apply split_go_nonnil.
Qed.

Lemma which_absolute_witness :
  prefix "/" "/bin/mvn" = true
  /\ which {| proc_cwd := []; proc_nosearch := []; proc_noread := [] |}
       {| fs_dirs := [["bin"]]; fs_files := [(["bin"; "mvn"], "")] |} (Some "/usr/bin:/opt") "/bin/mvn"
     = exists_str {| proc_cwd := []; proc_nosearch := []; proc_noread := [] |}
         {| fs_dirs := [["bin"]]; fs_files := [(["bin"; "mvn"], "")] |} "/bin/mvn"
  /\ exists_str {| proc_cwd := []; proc_nosearch := []; proc_noread := [] |}
       {| fs_dirs := [["bin"]]; fs_files := [(["bin"; "mvn"], "")] |} "/bin/mvn" = Ret true.
Proof.
  assert (Hc : prefix "/" "/bin/mvn" = true) by reflexivity.
  split; [exact Hc|split; [exact (which_absolute _ _ "/usr/bin:/opt" "/bin/mvn" Hc)|vm_compute; reflexivity]].
Defined.
